(** * Chunked content persistence and retry: a shallow embedding

    The development embeds the chunked-write subsystem of the CLI
    ([FileManager] from utils/fileManager.js, [ChunkManager] from
    src/managers/chunkManager.js, [ErrorHandler] from utils/errorHandler.js
    and the error classes of src/utils/errors.js) and states its properties.

    JavaScript strings are sequences of UTF-16 code units, numbers that the
    code uses as sizes, indices, counters and millisecond timestamps are
    integers, objects are property lists, and [Map]s are finite maps.  Methods
    that read the clock, mutate an object or throw are written in a state and
    exception monad. *)

From Stdlib Require Import ZArith QArith List String Ascii Lia DecimalString.
From Stdlib Require DecimalPos DecimalZ.
From Stdlib Require Import Sorting.Sorted Sorting.Permutation.
From stdpp Require Import gmap list.

Local Open Scope string_scope.
Local Open Scope list_scope.
Local Open Scope Z_scope.
Set Warnings "-register-all".

(** ** JavaScript values *)

(** A string is its sequence of UTF-16 code units. *)
Abbreviation JsString := (list N).

(** A literal of the program text (ASCII). *)
Definition lit (s : string) : JsString :=
  map N_of_ascii (list_ascii_of_string s).

Inductive JsVal : Type :=
| JUndefined
| JNull
| JNum (n : Z)
| JBool (b : bool)
| JStr (s : JsString)
| JObj (props : list (string * JsVal)).

(** The numbers a conversion can produce. *)
Inductive JsNumber : Type :=
| NaN
| PosInfinity
| NegInfinity
| Fin (q : Q).

Inductive ErrorClass : Type :=
| ClsError
| ClsTypeError
| ClsRetryableError
| ClsValidationError
| ClsWorkerError.

(** An [Error] instance: its class, [name] and [message], and the own
    properties the program reads or writes; [None] is an absent property. *)
Record JsError : Type := mkJsError {
  cls : ErrorClass;
  name : JsString;
  message : JsString;
  details : option (list JsString);
  context : option (list (string * JsVal));
  timestamp : option Z;
  status : option Z;
  code : option JsString
}.

(** [error.context = c] and [error.timestamp = t] *)
Definition set_context (c : list (string * JsVal)) (error : JsError) : JsError :=
  mkJsError (cls error) (name error) (message error) (details error)
            (Some c) (timestamp error) (status error) (code error).

Definition set_timestamp (t : Z) (error : JsError) : JsError :=
  mkJsError (cls error) (name error) (message error) (details error)
            (context error) (Some t) (status error) (code error).

Inductive Outcome (A : Type) : Type :=
| Ok (a : A)
| Throw (e : JsError).
Arguments Ok {A} a.
Arguments Throw {A} e.

Arguments lit : simpl never.

(** ** The host: clock, random source, and string-to-number conversion *)

(** [Date_now k] is what the k-th call of [Date.now()] returns,
    [random_suffix k] what the k-th evaluation of
    [Math.random().toString(36).substr(2, 9)] returns, and
    [numeric_literal_value s] the value of [Number(s)] for a string made of
    characters that can occur in a numeric literal. *)
Record Host : Type := mkHost {
  Date_now : nat -> Z;
  random_suffix : nat -> JsString;
  numeric_literal_value : JsString -> JsNumber;
  now_reads : nat;
  random_reads : nat
}.

(** ** State and exception monad *)

Definition M (S A : Type) : Type := Host -> S -> Outcome A * Host * S.

Definition ret {S A} (a : A) : M S A := fun h s => (Ok a, h, s).

Definition throw {S A} (e : JsError) : M S A := fun h s => (Throw e, h, s).

Definition bind {S A B} (m : M S A) (f : A -> M S B) : M S B :=
  fun h s =>
    match m h s with
    | (Ok a, h', s') => f a h' s'
    | (Throw e, h', s') => (Throw e, h', s')
    end.

Definition get_state {S} : M S S := fun h s => (Ok s, h, s).

Definition put_state {S} (s : S) : M S unit := fun h _ => (Ok tt, h, s).

Definition modify {S} (f : S -> S) : M S unit := fun h s => (Ok tt, h, f s).

Definition get_host {S} : M S Host := fun h s => (Ok h, h, s).

Definition of_outcome {S A} (o : Outcome A) : M S A := fun h s => (o, h, s).

(** Run a method of a member object inside a method of its owner. *)
Definition on_member {S T A} (proj : S -> T) (upd : T -> S -> S)
    (m : M T A) : M S A :=
  fun h s => let '(o, h', t') := m h (proj s) in (o, h', upd t' s).

Definition try_catch {S A} (m : M S A) (handler : JsError -> M S A) : M S A :=
  fun h s =>
    match m h s with
    | (Ok a, h', s') => (Ok a, h', s')
    | (Throw e, h', s') => handler e h' s'
    end.

Notation "'let*' x ':=' m 'in' k" := (bind m (fun x => k))
  (at level 10, x binder, m at level 200, k at level 200).
Notation "'run' m 'then' k" := (bind m (fun _ => k))
  (at level 10, m at level 200, k at level 200).

(** The host after one more reading of the clock, or of the random
    source. *)
Definition clock_read (h : Host) : Host :=
  mkHost (Date_now h) (random_suffix h) (numeric_literal_value h)
         (S (now_reads h)) (random_reads h).

Definition random_read (h : Host) : Host :=
  mkHost (Date_now h) (random_suffix h) (numeric_literal_value h)
         (now_reads h) (S (random_reads h)).

(** [Date.now()] *)
Definition now {S} : M S Z :=
  fun h s => (Ok (Date_now h (now_reads h)), clock_read h, s).

(** [Math.random().toString(36).substr(2, 9)] *)
Definition random36 {S} : M S JsString :=
  fun h s => (Ok (random_suffix h (random_reads h)), random_read h, s).

(** ** Built-in operations *)

(** Decimal text of an integer, as template literals print it. *)
Definition number_to_string (z : Z) : JsString :=
  lit (NilZero.string_of_int (Z.to_int z)).

Arguments number_to_string : simpl never.

(** Property read [v.p]: a [TypeError] on [undefined] and on [null], the
    property or [undefined] on an object.  Primitive wrappers have none of
    the properties the program reads. *)
Fixpoint assoc (p : string) (props : list (string * JsVal)) : option JsVal :=
  match props with
  | [] => None
  | (q, v) :: rest => if String.eqb p q then Some v else assoc p rest
  end.

Definition type_error (msg : string) : JsError :=
  mkJsError ClsTypeError (lit "TypeError") (lit msg) None None None None None.

Definition get_prop (v : JsVal) (p : string) : Outcome JsVal :=
  match v with
  | JUndefined =>
      Throw (type_error
               (String.append "Cannot read properties of undefined (reading '"
                              (String.append p "')")))
  | JNull =>
      Throw (type_error
               (String.append "Cannot read properties of null (reading '"
                              (String.append p "')")))
  | JObj props => Ok (default JUndefined (assoc p props))
  | _ => Ok JUndefined
  end.

(** Property write on an object literal or spread: an existing property
    keeps its place, a new one goes last. *)
Fixpoint set_prop (p : string) (v : JsVal) (props : list (string * JsVal))
    : list (string * JsVal) :=
  match props with
  | [] => [(p, v)]
  | (q, w) :: rest =>
      if String.eqb p q then (q, v) :: rest else (q, w) :: set_prop p v rest
  end.

Definition truthy (v : JsVal) : bool :=
  match v with
  | JUndefined => false
  | JNull => false
  | JNum n => negb (n =? 0)
  | JBool b => b
  | JStr s => match s with [] => false | _ => true end
  | JObj _ => true
  end.

(** [String.prototype.slice] *)
Definition slice {A} (s : list A) (start end_ : Z) : list A :=
  let len := Z.of_nat (length s) in
  let from := if start <? 0 then Z.max (len + start) 0 else Z.min start len in
  let to := if end_ <? 0 then Z.max (len + end_) 0 else Z.min end_ len in
  take (Z.to_nat (to - from)) (drop (Z.to_nat from) s).

(** [Math.ceil(a / b)] for integers [a] and [b > 0]. *)
Definition ceil_div (a b : Z) : Z := (a + b - 1) / b.

(** Length of [new TextEncoder().encode(s)]: the UTF-8 encoding of the
    code points of [s], a lone surrogate being replaced by U+FFFD. *)
Definition is_high_surrogate (c : N) : bool := ((55296 <=? c) && (c <=? 56319))%N.
Definition is_low_surrogate (c : N) : bool := ((56320 <=? c) && (c <=? 57343))%N.

Fixpoint utf8_length (s : JsString) : Z :=
  match s with
  | [] => 0
  | c :: rest =>
      if (c <? 128)%N then 1 + utf8_length rest
      else if (c <? 2048)%N then 2 + utf8_length rest
      else if is_high_surrogate c then
        match rest with
        | d :: rest' =>
            if is_low_surrogate d then 4 + utf8_length rest'
            else 3 + utf8_length rest
        | [] => 3
        end
      else 3 + utf8_length rest
  end.

(** Characters that occur in some StringNumericLiteral: white space and
    line terminators, digits, signs, the point, exponent markers, the
    letters of [Infinity], hexadecimal digits and the radix prefixes. *)
Definition may_occur_in_numeric_literal (c : N) : bool :=
  existsb (N.eqb c)
    ([9; 10; 11; 12; 13; 32; 160; 5760; 8232; 8233; 8239; 8287; 12288; 65279]
     ++ lit "0123456789+-.eEInfinityabcdefABCDEFxXoObB")%N
  || ((8192 <=? c) && (c <=? 8202))%N.

(** [Number(s)]: NaN unless [s] is a numeric literal. *)
Definition StringToNumber (h : Host) (s : JsString) : JsNumber :=
  if forallb may_occur_in_numeric_literal s then numeric_literal_value h s
  else NaN.

Definition ToNumber (h : Host) (v : JsVal) : JsNumber :=
  match v with
  | JUndefined => NaN
  | JNull => Fin 0
  | JNum n => Fin (inject_Z n)
  | JBool b => Fin (inject_Z (if b then 1 else 0))
  | JStr s => StringToNumber h s
  | JObj _ => NaN
  end.

(** [x > y] on numbers. *)
Definition number_gt (x y : JsNumber) : bool :=
  match x, y with
  | NaN, _ | _, NaN => false
  | PosInfinity, PosInfinity => false
  | PosInfinity, _ => true
  | _, PosInfinity => false
  | NegInfinity, _ => false
  | _, NegInfinity => true
  | Fin a, Fin b => negb (Qle_bool a b)
  end.

(** [x - y] on numbers. *)
Definition number_sub (x y : JsNumber) : JsNumber :=
  match x, y with
  | NaN, _ | _, NaN => NaN
  | PosInfinity, PosInfinity | NegInfinity, NegInfinity => NaN
  | PosInfinity, _ | _, NegInfinity => PosInfinity
  | NegInfinity, _ | _, PosInfinity => NegInfinity
  | Fin a, Fin b => Fin (Qminus a b)
  end.

(** What [Array.prototype.join] prints for an element. *)
Definition join_item (v : JsVal) : JsString :=
  match v with
  | JUndefined => []
  | JNull => []
  | JNum n => number_to_string n
  | JBool b => if b then lit "true" else lit "false"
  | JStr s => s
  | JObj _ => lit "[object Object]"
  end.

(** [parts.join(sep)] on an array of strings. *)
Fixpoint join_strings (sep : JsString) (parts : list JsString) : JsString :=
  match parts with
  | [] => []
  | [p] => p
  | p :: rest => p ++ sep ++ join_strings sep rest
  end.

(** [s.split(c)] for a one-character separator. *)
Fixpoint split_on (c : N) (s : JsString) : list JsString :=
  match s with
  | [] => [[]]
  | d :: rest =>
      if N.eqb d c then [] :: split_on c rest
      else match split_on c rest with
           | [] => [[d]]
           | p :: ps => (d :: p) :: ps
           end
  end.

(** A [Map] in insertion order: [set] keeps the place of a present key. *)
Fixpoint map_set {V} (k : Z) (v : V) (m : list (Z * V)) : list (Z * V) :=
  match m with
  | [] => [(k, v)]
  | (k', v') :: rest =>
      if k =? k' then (k', v) :: rest else (k', v') :: map_set k v rest
  end.

(** [Array.prototype.sort] with a comparator that may throw: [undefined]
    elements go last without being compared, the others are sorted by a
    stable insertion sort; [cmp y x > 0] puts [x] before [y], a zero or
    NaN comparison leaves the two in the order they came. *)
Definition sorts_after (r : JsNumber) : bool := number_gt r (Fin 0).

Fixpoint sort_insert (cmp : JsVal -> JsVal -> Outcome JsNumber)
    (x : JsVal) (sorted : list JsVal) : Outcome (list JsVal) :=
  match sorted with
  | [] => Ok [x]
  | y :: rest =>
      match cmp y x with
      | Throw e => Throw e
      | Ok r =>
          if sorts_after r then Ok (x :: y :: rest)
          else
            match sort_insert cmp x rest with
            | Throw e => Throw e
            | Ok l => Ok (y :: l)
            end
      end
  end.

Fixpoint Array_sort_from (cmp : JsVal -> JsVal -> Outcome JsNumber)
    (todo sorted : list JsVal) : Outcome (list JsVal) :=
  match todo with
  | [] => Ok sorted
  | x :: rest =>
      match sort_insert cmp x sorted with
      | Throw e => Throw e
      | Ok sorted' => Array_sort_from cmp rest sorted'
      end
  end.

Definition is_undefined (v : JsVal) : bool :=
  match v with JUndefined => true | _ => false end.

Definition Array_sort (cmp : JsVal -> JsVal -> Outcome JsNumber)
    (l : list JsVal) : Outcome (list JsVal) :=
  match Array_sort_from cmp (List.filter (fun v => negb (is_undefined v)) l) []
  with
  | Throw e => Throw e
  | Ok sorted => Ok (sorted ++ List.filter is_undefined l)
  end.

(** ** utils/fileManager.js *)

Module FileManager.

Record CacheEntry : Type := mkCacheEntry {
  content : JsString;
  timestamp : Z;
  metadata : JsVal
}.

Record t : Type := mk {
  CHUNK_SIZE : Z;
  WARNING_THRESHOLD : Q;
  fileCache : gmap JsString CacheEntry
}.

Definition set_fileCache (c : gmap JsString CacheEntry) (this : t) : t :=
  mk (CHUNK_SIZE this) (WARNING_THRESHOLD this) c.

(** [constructor()] *)
Definition new : t := mk 50000 (8 # 10) ∅.

Record Analysis : Type := mkAnalysis {
  size : Z;
  requiresChunking : bool;
  chunks : Z;
  approachingLimit : bool
}.

(** [size / CHUNK_SIZE] is an integer quotient below 2^53 over a
    positive divisor, so [Math.ceil] of the floating quotient is the
    integer ceiling. *)
Definition analyzeContent (this : t) (content : JsString) : Analysis :=
  let size := utf8_length content in
  mkAnalysis size
    (size >? CHUNK_SIZE this)
    (ceil_div size (CHUNK_SIZE this))
    (negb (Qle_bool (inject_Z size)
                    (inject_Z (CHUNK_SIZE this) * WARNING_THRESHOLD this))).

(** The [for] loop of [splitContent], from index [i] with [n] rounds
    left; [chunks] is the array pushed to. *)
Fixpoint splitContent_loop (content : JsString) (chunkSize : Z)
    (n : nat) (i : Z) (chunks : list JsString) : list JsString :=
  match n with
  | O => chunks
  | S n' =>
      let start := i * chunkSize in
      let end_ := start + chunkSize in
      splitContent_loop content chunkSize n' (i + 1)
        (chunks ++ [slice content start end_])
  end.

Definition splitContent (content : JsString) (numChunks : Z)
    : list JsString :=
  let chunkSize := ceil_div (Z.of_nat (length content)) numChunks in
  splitContent_loop content chunkSize (Z.to_nat numChunks) 0 [].

Definition getChunkPath (originalPath : JsString) (index : Z) : JsString :=
  let parts := split_on 46%N originalPath in
  let ext := List.last parts [] in
  let parts := removelast parts in
  join_strings (lit ".") parts ++ lit ".part" ++ number_to_string index
    ++ lit "." ++ ext.

(** [options] is the options argument, [JUndefined] when it is left out:
    the default applies to [undefined] only, not to [null]. *)
Definition writeSingleFile (path content : JsString) (options : JsVal)
    : M t JsVal :=
  let options := match options with JUndefined => JObj [] | o => o end in
  let* cached_at := now in
  let* md := of_outcome (get_prop options "metadata") in
  run modify (fun this =>
        set_fileCache
          (<[path := mkCacheEntry content cached_at
                       (if truthy md then md else JObj [])]>
             (fileCache this)) this) then
  let* written_at := now in
  ret (JObj [("path", JStr path);
             ("size", JNum (Z.of_nat (length content)));
             ("cached", JBool true);
             ("timestamp", JNum written_at)]).

Definition isCached (path : JsString) : M t bool :=
  let* this := get_state in
  ret (bool_decide (is_Some (fileCache this !! path))).

Definition getCached (path : JsString) : M t (option CacheEntry) :=
  let* this := get_state in
  ret (fileCache this !! path).

(** The test of the loop body: [now - data.timestamp > olderThan]. *)
Definition expired (h : Host) (now : Z) (olderThan : JsVal)
    (data : CacheEntry) : bool :=
  number_gt (Fin (inject_Z (now - timestamp data))) (ToNumber h olderThan).

(** Deleting the entry being visited does not disturb the iteration of a
    [Map], so the loop keeps exactly the entries that fail the test.
    [olderThan] is [JUndefined] when the argument is left out. *)
Definition clearCache (olderThan : JsVal) : M t unit :=
  let olderThan :=
    match olderThan with JUndefined => JNum 3600000 | v => v end in
  let* now := now in
  let* h := get_host in
  modify (fun this =>
    set_fileCache
      (filter (fun entry => expired h now olderThan entry.2 = false)
              (fileCache this)) this).

(** The [for] loop of [writeChunkedFile] over the remaining chunks;
    [total] is [chunks.length]. *)
Fixpoint write_chunked_loop (path : JsString) (remaining : list JsString)
    (i total : Z) (results : list JsVal) : M t (list JsVal) :=
  match remaining with
  | [] => ret results
  | chunk :: rest =>
      let chunkPath := getChunkPath path i in
      let* result := writeSingleFile chunkPath chunk JUndefined in
      let results := results ++ [result] in
      let* cached_at := now in
      run modify (fun this =>
            set_fileCache
              (<[chunkPath := mkCacheEntry chunk cached_at
                                (JObj [("part", JNum i);
                                       ("total", JNum total)])]>
                 (fileCache this)) this) then
      write_chunked_loop path rest (i + 1) total results
  end.

Definition writeChunkedFile (path content : JsString) (analysis : Analysis)
    : M t (list JsVal) :=
  let chunks := splitContent content (chunks analysis) in
  write_chunked_loop path chunks 0 (Z.of_nat (length chunks)) [].

(** Returns the list of chunk results, or the one result of a single
    write. *)
Definition writeFile (path content : JsString) (options : JsVal)
    : M t (list JsVal + JsVal) :=
  let* this := get_state in
  let analysis := analyzeContent this content in
  if requiresChunking analysis then
    let* results := writeChunkedFile path content analysis in
    ret (inl results)
  else
    let* result := writeSingleFile path content options in
    ret (inr result).

End FileManager.

(** ** src/managers/chunkManager.js *)

Module ChunkManager.

(** An entry of [pendingChunks]; [chunks] is the [Map] from chunk index
    to the result of its write.  [finalizeChunkedOperation] merges a fresh
    array of its values ([Array.from]), so what [concatenateChunks] does to
    that array is seen by nobody else. *)
Record Operation : Type := mkOperation {
  total : Z;
  completed : Z;
  chunks : list (Z * JsVal)
}.

Record t : Type := mk {
  fileManager : FileManager.t;
  pendingChunks : gmap JsString Operation
}.

Definition set_fileManager (fm : FileManager.t) (this : t) : t :=
  mk fm (pendingChunks this).

Definition set_pendingChunks (p : gmap JsString Operation) (this : t) : t :=
  mk (fileManager this) p.

(** [constructor()] *)
Definition new : t := mk FileManager.new ∅.

Definition in_fileManager {A} (m : M FileManager.t A) : M t A :=
  on_member fileManager set_fileManager m.

(** The class calls [this.handleCompletedOperation] and neither defines
    nor inherits a property of that name: the call throws. *)
Definition handleCompletedOperation (operationId : JsString) : M t unit :=
  throw (type_error "this.handleCompletedOperation is not a function").

Definition updateChunkProgress (operationId : JsString) (index : Z)
    (result : JsVal) : M t unit :=
  let* this := get_state in
  match pendingChunks this !! operationId with
  | Some operation =>
      let operation :=
        mkOperation (total operation) (completed operation)
                    (map_set index result (chunks operation)) in
      let operation :=
        mkOperation (total operation) (completed operation + 1)
                    (chunks operation) in
      run put_state
            (set_pendingChunks
               (<[operationId := operation]> (pendingChunks this)) this) then
      if completed operation =? total operation
      then handleCompletedOperation operationId
      else ret tt
  | None => ret tt
  end.

Definition writeChunk (path content : JsString) (index : Z)
    (operationId : JsString) : M t JsVal :=
  let chunkPath := FileManager.getChunkPath path index in
  let* result :=
    in_fileManager
      (FileManager.writeSingleFile chunkPath content
         (JObj [("metadata",
                 JObj [("operationId", JStr operationId);
                       ("index", JNum index);
                       ("isChunk", JBool true)])])) in
  run updateChunkProgress operationId index result then
  ret result.

(** The comparator of [concatenateChunks]:
    [a.metadata.index - b.metadata.index]. *)
Definition by_metadata_index (h : Host) (a b : JsVal) : Outcome JsNumber :=
  match get_prop a "metadata" with
  | Throw e => Throw e
  | Ok ma =>
      match get_prop ma "index" with
      | Throw e => Throw e
      | Ok ia =>
          match get_prop b "metadata" with
          | Throw e => Throw e
          | Ok mb =>
              match get_prop mb "index" with
              | Throw e => Throw e
              | Ok ib => Ok (number_sub (ToNumber h ia) (ToNumber h ib))
              end
          end
      end
  end.

Fixpoint map_content (chunks : list JsVal) : Outcome (list JsVal) :=
  match chunks with
  | [] => Ok []
  | chunk :: rest =>
      match get_prop chunk "content" with
      | Throw e => Throw e
      | Ok c =>
          match map_content rest with
          | Throw e => Throw e
          | Ok cs => Ok (c :: cs)
          end
      end
  end.

(** [chunks] is the caller's array, which [sort] reorders in place: the
    second component returned is that array as the call leaves it.  When
    the call throws, the order the array is left in is not modelled. *)
Definition concatenateChunks (chunks : list JsVal)
    : M t (JsString * list JsVal) :=
  let* h := get_host in
  let* sorted := of_outcome (Array_sort (by_metadata_index h) chunks) in
  let* contents := of_outcome (map_content sorted) in
  ret (concat (map join_item contents), sorted).

Definition finalizeChunkedOperation (operationId originalPath : JsString)
    : M t JsVal :=
  let* this := get_state in
  match pendingChunks this !! operationId with
  | None => ret JUndefined
  | Some operation =>
      let allChunks := map snd (chunks operation) in
      let* merged := concatenateChunks allChunks in
      let concatenatedContent := merged.1 in
      let* _ :=
        in_fileManager
          (FileManager.writeSingleFile originalPath concatenatedContent
             (JObj [("metadata",
                     JObj [("operationId", JStr operationId);
                           ("isComplete", JBool true);
                           ("totalChunks", JNum (total operation))])])) in
      run modify (fun this =>
            set_pendingChunks (delete operationId (pendingChunks this)) this)
      then
      ret (JStr concatenatedContent)
  end.

Definition generateOperationId : M t JsString :=
  let* t := now in
  let* r := random36 in
  ret (lit "chunk_" ++ number_to_string t ++ lit "_" ++ r).

(** The [for] loop of [handleChunkedWrite] over the remaining chunks. *)
Fixpoint write_chunks (path : JsString) (remaining : list JsString)
    (i : Z) (operationId : JsString) (results : list JsVal)
    : M t (list JsVal) :=
  match remaining with
  | [] => ret results
  | chunk :: rest =>
      let* result := writeChunk path chunk i operationId in
      write_chunks path rest (i + 1) operationId (results ++ [result])
  end.

Definition handleChunkedWrite (path content : JsString)
    (analysis : FileManager.Analysis) : M t (list JsVal) :=
  let* operationId := generateOperationId in
  let chunks :=
    FileManager.splitContent content (FileManager.chunks analysis) in
  run modify (fun this =>
        set_pendingChunks
          (<[operationId :=
               mkOperation (Z.of_nat (length chunks)) 0 []]>
             (pendingChunks this)) this) then
  let* results := write_chunks path chunks 0 operationId [] in
  run finalizeChunkedOperation operationId path then
  ret results.

(** Returns the list of chunk results, or the one result of a single
    write. *)
Definition writeContentInChunks (path content : JsString)
    : M t (list JsVal + JsVal) :=
  let* this := get_state in
  let analysis := FileManager.analyzeContent (fileManager this) content in
  if FileManager.requiresChunking analysis then
    let* results := handleChunkedWrite path content analysis in
    ret (inl results)
  else
    let* result :=
      in_fileManager (FileManager.writeSingleFile path content JUndefined) in
    ret (inr result).

Record Status : Type := mkStatus {
  status_total : Z;
  status_completed : Z;
  status_isComplete : bool
}.

(** [progress], a floating quotient, is left out of the status. *)
Definition getOperationStatus (operationId : JsString)
    : M t (option Status) :=
  let* this := get_state in
  match pendingChunks this !! operationId with
  | None => ret None
  | Some operation =>
      ret (Some (mkStatus (total operation) (completed operation)
                   (completed operation =? total operation)))
  end.

(** The [forEach] of [cleanupOperation] over the remaining results. *)
Fixpoint clear_chunk_files (chunks : list JsVal) : M t unit :=
  match chunks with
  | [] => ret tt
  | chunk :: rest =>
      let* path := of_outcome (get_prop chunk "path") in
      run in_fileManager (FileManager.clearCache path) then
      clear_chunk_files rest
  end.

Definition cleanupOperation (operationId : JsString) : M t unit :=
  let* this := get_state in
  match pendingChunks this !! operationId with
  | None => ret tt
  | Some operation =>
      run clear_chunk_files (map snd (chunks operation)) then
      modify (fun this =>
        set_pendingChunks (delete operationId (pendingChunks this)) this)
  end.

End ChunkManager.

(** ** src/utils/errors.js *)

Definition new_Error (message : JsString) : JsError :=
  mkJsError ClsError (lit "Error") message None None None None None.

Definition new_RetryableError (message : JsString) : JsError :=
  mkJsError ClsRetryableError (lit "RetryableError") message
            None None None None None.

(** [details] is [None] when the argument is left out. *)
Definition new_ValidationError (message : JsString)
    (details : option (list JsString)) : JsError :=
  mkJsError ClsValidationError (lit "ValidationError") message
            (Some (default [] details)) None None None None.

(** [context] is [None] when the argument is left out. *)
Definition new_WorkerError (message : JsString)
    (context : option (list (string * JsVal))) : JsError :=
  mkJsError ClsWorkerError (lit "WorkerError") message
            None (Some (default [] context)) None None None.

(** [error instanceof C]: every class extends [Error] directly. *)
Definition instanceof (error : JsError) (C : ErrorClass) : bool :=
  match C, cls error with
  | ClsError, _ => true
  | ClsTypeError, ClsTypeError => true
  | ClsRetryableError, ClsRetryableError => true
  | ClsValidationError, ClsValidationError => true
  | ClsWorkerError, ClsWorkerError => true
  | _, _ => false
  end.

(** ** utils/errorHandler.js *)

Module ErrorHandler.

Record t : Type := mk {
  maxRetries : Z;
  baseDelay : Z;
  maxDelay : Z
}.

Record Options : Type := mkOptions {
  opt_maxRetries : option Z;
  opt_baseDelay : option Z;
  opt_maxDelay : option Z
}.

(** [o || d] on an optional number. *)
Definition or_default (o : option Z) (d : Z) : Z :=
  match o with
  | Some n => if n =? 0 then d else n
  | None => d
  end.

(** [constructor(options = {})] *)
Definition new (options : Options) : t :=
  mk (or_default (opt_maxRetries options) 3)
     (or_default (opt_baseDelay options) 1000)
     (or_default (opt_maxDelay options) 10000).

Definition no_options : Options := mkOptions None None None.

(** What a run leaves behind: how often the operation was invoked, the
    waits slept and the warnings printed, oldest first. *)
Record Effects : Type := mkEffects {
  invocations : nat;
  sleeps : list Z;
  warnings : list JsString
}.

Definition no_effects : Effects := mkEffects 0 [] [].

(** [await operation()]: the k-th invocation yields [operation k]. *)
Definition invoke (operation : nat -> Outcome JsVal) : M Effects JsVal :=
  fun h s =>
    (operation (invocations s), h,
     mkEffects (S (invocations s)) (sleeps s) (warnings s)).

Definition sleep (ms : Z) : M Effects unit :=
  modify (fun s => mkEffects (invocations s) (sleeps s ++ [ms]) (warnings s)).

Definition console_warn (text : JsString) : M Effects unit :=
  modify (fun s => mkEffects (invocations s) (sleeps s) (warnings s ++ [text])).

Definition isRetryable (error : JsError) : bool :=
  if instanceof error ClsRetryableError then true
  else if instanceof error ClsValidationError then false
  else if match status error with Some n => 500 <=? n | None => false end
  then true
  else if bool_decide (code error = Some (lit "ECONNRESET")) then true
  else if bool_decide (code error = Some (lit "ETIMEDOUT")) then true
  else false.

Definition enhanceError {S} (error : JsError)
    (context : list (string * JsVal)) : M S JsError :=
  let enhanced :=
    if instanceof error ClsWorkerError then error
    else new_WorkerError (message error) None in
  let enhanced := set_context context enhanced in
  let* t := now in
  ret (set_timestamp t enhanced).

(** The [for] loop of [withRetry] at [attempt] with [rounds] iterations
    left before [attempt] exceeds [maxRetries]. *)
Fixpoint retry_loop (this : t) (operation : nat -> Outcome JsVal)
    (context : list (string * JsVal)) (rounds : nat) (attempt delay : Z)
    : M Effects JsVal :=
  match rounds with
  | O => ret JUndefined
  | S rounds' =>
      try_catch (invoke operation) (fun error =>
        if negb (isRetryable error) then
          let* enhanced := enhanceError error context in
          throw enhanced
        else if attempt =? maxRetries this then
          let* enhanced :=
            enhanceError
              (new_Error (lit "Operation failed after "
                            ++ number_to_string (maxRetries this)
                            ++ lit " attempts: " ++ message error))
              (set_prop "finalAttempt" (JBool true) context) in
          throw enhanced
        else
          run console_warn
                (lit "Attempt " ++ number_to_string attempt
                   ++ lit " failed, retrying in " ++ number_to_string delay
                   ++ lit "ms...") then
          run sleep delay then
          retry_loop this operation context rounds' (attempt + 1)
                     (Z.min (delay * 2) (maxDelay this)))
  end.

(** [context] is the context object ([[]] when left out). *)
Definition withRetry (this : t) (operation : nat -> Outcome JsVal)
    (context : list (string * JsVal)) : M Effects JsVal :=
  retry_loop this operation context (Z.to_nat (maxRetries this)) 1
             (baseDelay this).

End ErrorHandler.

(** ** Concrete runs used by the examples below *)

(** A host whose clock advances one millisecond per reading. *)
Definition example_host : Host :=
  mkHost (fun k => 1700000000000 + Z.of_nat k)
         (fun _ => lit "k3x9q2m1z")
         (fun _ => NaN) 0 0.

(** 120,000 one-byte characters. *)
Definition example_content : JsString := repeat 97%N (Z.to_nat 120000).

Definition example_operationId : JsString := lit "chunk_1700000000000_k3x9q2m1z".

(** The manager and host after [writeContentInChunks("out.txt", content)]. *)
Definition after_chunked_write : Outcome (list JsVal + JsVal) * Host * ChunkManager.t :=
  ChunkManager.writeContentInChunks (lit "out.txt") example_content
    example_host ChunkManager.new.

(** A write result as [writeSingleFile] returns it. *)
Definition example_result (path : string) (size : Z) : JsVal :=
  JObj [("path", JStr (lit path)); ("size", JNum size);
        ("cached", JBool true); ("timestamp", JNum 1700000000001)].

(** A manager with one pending operation of three chunks, none written. *)
Definition example_pending : ChunkManager.t :=
  ChunkManager.mk FileManager.new
    {[ lit "op" := ChunkManager.mkOperation 3 0 [] ]}.

(** The same manager once the write of chunk 0 has been recorded. *)
Definition example_one_written : ChunkManager.t :=
  ChunkManager.mk FileManager.new
    {[ lit "op" :=
         ChunkManager.mkOperation 3 1
           [(0, example_result "out.part0.txt" 40000)] ]}.

(** A cache entry of chunk [index], as [writeSingleFile] stores it for
    [writeChunk]. *)
Definition example_entry (index : Z) (content : string) : JsVal :=
  JObj [("content", JStr (lit content));
        ("timestamp", JNum 1700000000000);
        ("metadata", JObj [("operationId", JStr (lit "op"));
                           ("index", JNum index);
                           ("isChunk", JBool true)])].

(** The same manager once the writes of chunks 0 and 1 have been
    recorded: the next delivery brings [completed] to [total]. *)
Definition example_two_written : ChunkManager.t :=
  ChunkManager.mk FileManager.new
    {[ lit "op" :=
         ChunkManager.mkOperation 3 2
           [(0, example_result "out.part0.txt" 40000);
            (1, example_result "out.part1.txt" 40000)] ]}.

(** An operation whose first attempt fails with a retryable error and
    whose later attempts fail with [e]. *)
Definition throws_after_one_retry (e : JsError) : nat -> Outcome JsVal :=
  fun j => match j with
           | O => Throw (mkJsError ClsRetryableError (lit "RetryableError")
                           (lit "bridge unavailable")
                           None None None None None)
           | _ => Throw e
           end.

(** An operation that throws the same error at every invocation. *)
Definition always_throws (e : JsError) : nat -> Outcome JsVal :=
  fun _ => Throw e.

Definition example_validation_error : JsError :=
  new_ValidationError (lit "API specification validation failed")
    (Some [lit "info.title is required"]).

Definition example_retryable_error : JsError :=
  new_RetryableError (lit "bridge unavailable").

Definition example_context : list (string * JsVal) :=
  [("command", JStr (lit "validate"))].

(** A cache holding one entry written at [written_at]. *)
Definition example_cache (written_at : Z) : FileManager.t :=
  FileManager.set_fileCache
    {[ lit "out.txt" :=
         FileManager.mkCacheEntry (lit "hello") written_at (JObj []) ]}
    FileManager.new.

(** The wait before the retry that follows the (k+1)-th failed attempt,
    as the loop of [withRetry] updates [delay]. *)
Fixpoint backoff (maxDelay delay : Z) (k : nat) : Z :=
  match k with
  | O => delay
  | S k' => backoff maxDelay (Z.min (delay * 2) maxDelay) k'
  end.

(** The operation's state after one invocation. *)
Definition invoked (s : ErrorHandler.Effects) : ErrorHandler.Effects :=
  ErrorHandler.mkEffects (S (ErrorHandler.invocations s))
    (ErrorHandler.sleeps s) (ErrorHandler.warnings s).

(** Length of the content stored in a cache entry. *)
Definition stored_size (data : FileManager.CacheEntry) : Z :=
  Z.of_nat (length (FileManager.content data)).

(** The offsets [splitContent] gives fragment [i]. *)
Definition fragment_at (content : JsString) (chunkSize : Z) (i : nat)
    : JsString :=
  slice content (Z.of_nat i * chunkSize) (Z.of_nat i * chunkSize + chunkSize).

(** The object [writeSingleFile] returns. *)
Definition write_result (path : JsString) (size written_at : Z) : JsVal :=
  JObj [("path", JStr path); ("size", JNum size);
        ("cached", JBool true); ("timestamp", JNum written_at)].

(** [v] is an object whose [metadata.index] is the number [index] and
    whose [content] is the string [content]. *)
Definition is_chunk_entry (v : JsVal) (index : Z) (content : JsString)
    : Prop :=
  exists props mprops,
    v = JObj props
    /\ assoc "metadata" props = Some (JObj mprops)
    /\ assoc "index" mprops = Some (JNum index)
    /\ assoc "content" props = Some (JStr content).

Definition entry_of (v : JsVal) (ic : Z * JsString) : Prop :=
  is_chunk_entry v ic.1 ic.2.

(** A host that starts half a second after [example_host]. *)
Definition example_host_later : Host :=
  mkHost (fun k => 1700000000500 + Z.of_nat k)
         (fun _ => lit "k3x9q2m1z")
         (fun _ => NaN) 0 0.

(** Stable insertion sort of indexed contents by ascending index. *)
Fixpoint insert_by_index (x : Z * JsString) (sorted : list (Z * JsString))
    : list (Z * JsString) :=
  match sorted with
  | [] => [x]
  | y :: rest =>
      if y.1 >? x.1 then x :: y :: rest
      else y :: insert_by_index x rest
  end.

Fixpoint sort_by_index_from (todo sorted : list (Z * JsString))
    : list (Z * JsString) :=
  match todo with
  | [] => sorted
  | x :: rest => sort_by_index_from rest (insert_by_index x sorted)
  end.

Definition sort_by_index (l : list (Z * JsString)) : list (Z * JsString) :=
  sort_by_index_from l [].

(** The error [enhanceError] returns for [error], read at clock [t]. *)
Definition enhanced (error : JsError) (supplied : list (string * JsVal))
    (t : Z) : JsError :=
  set_timestamp t
    (set_context supplied
       (if instanceof error ClsWorkerError then error
        else new_WorkerError (message error) None)).

(** * Properties *)

(** ** Arithmetic and list facts *)

Lemma ceil_div_spec (a b : Z) :
  0 < b -> b * (ceil_div a b - 1) < a <= b * ceil_div a b.
Proof.
  intros Hb. unfold ceil_div.
  pose proof (Z.div_mod (a + b - 1) b ltac:(lia)) as Hdm.
  pose proof (Z.mod_pos_bound (a + b - 1) b Hb) as Hr.
  lia.
Qed.

Lemma ceil_div_unique (a b q : Z) :
  0 < b -> b * (q - 1) < a <= b * q -> ceil_div a b = q.
Proof.
  intros Hb Hq. pose proof (ceil_div_spec a b Hb) as Hc. nia.
Qed.

Lemma take_app_take_drop {A} (l : list A) (a m : nat) :
  take a l ++ take m (drop a l) = take (a + m) l.
Proof.
  revert l. induction a as [|a IH]; intros l.
  - reflexivity.
  - destruct l as [|x l]; simpl.
    + now rewrite take_nil.
    + now rewrite IH.
Qed.

(** A slice whose bounds are in order extends the prefix before it. *)
Lemma take_app_slice {A} (l : list A) (a c : Z) :
  0 <= a -> 0 <= c ->
  take (Z.to_nat a) l ++ slice l a (a + c) = take (Z.to_nat (a + c)) l.
Proof.
  intros Ha Hc. unfold slice.
  destruct (Z.ltb_spec a 0) as [|_]; [lia|].
  destruct (Z.ltb_spec (a + c) 0) as [|_]; [lia|].
  set (len := Z.of_nat (length l)).
  destruct (Z.le_gt_cases len a) as [Hge|Hlt].
  - rewrite (Z.min_r a len) by lia. rewrite (Z.min_r (a + c) len) by lia.
    replace (Z.to_nat (len - len)) with 0%nat by lia. simpl.
    rewrite app_nil_r.
    rewrite !take_ge; [reflexivity | subst len; lia | subst len; lia].
  - rewrite (Z.min_l a len) by lia.
    rewrite take_app_take_drop.
    destruct (Z.le_gt_cases (a + c) len) as [Hin|Hout].
    + rewrite Z.min_l by lia. f_equal. lia.
    + rewrite Z.min_r by lia.
      rewrite !take_ge; [reflexivity | subst len; lia | subst len; lia].
Qed.

Lemma slice_whole {A} (l : list A) : slice l 0 (Z.of_nat (length l)) = l.
Proof.
  unfold slice.
  destruct (Z.ltb_spec 0 0); [lia|].
  destruct (Z.ltb_spec (Z.of_nat (length l)) 0); [lia|].
  rewrite Z.min_id, Z.min_l by lia.
  rewrite Z.sub_0_r, Nat2Z.id. simpl. apply firstn_all.
Qed.

Lemma number_gt_inject_Z (a b : Z) :
  number_gt (Fin (inject_Z a)) (Fin (inject_Z b)) = (a >? b).
Proof.
  unfold number_gt, Qle_bool, inject_Z. simpl.
  rewrite !Z.mul_1_r. rewrite Z.gtb_ltb, Z.ltb_antisym. reflexivity.
Qed.

(** ** The chunk splitter *)

Lemma splitContent_loop_map content chunkSize n (i : nat) chunks :
  FileManager.splitContent_loop content chunkSize n (Z.of_nat i) chunks
  = chunks ++ map (fragment_at content chunkSize) (seq i n).
Proof.
  revert i chunks. induction n as [|n IH]; intros i chunks; simpl.
  - now rewrite app_nil_r.
  - replace (Z.of_nat i + 1) with (Z.of_nat (S i)) by lia.
    rewrite IH, <- app_assoc. reflexivity.
Qed.

Lemma splitContent_map content numChunks :
  FileManager.splitContent content numChunks
  = map (fragment_at content
           (ceil_div (Z.of_nat (length content)) numChunks))
        (seq 0 (Z.to_nat numChunks)).
Proof.
  unfold FileManager.splitContent.
  apply (splitContent_loop_map content _ (Z.to_nat numChunks) 0 []).
Qed.

Lemma concat_fragments content chunkSize (k : nat) :
  0 <= chunkSize ->
  concat (map (fragment_at content chunkSize) (seq 0 k))
  = take (Z.to_nat (Z.of_nat k * chunkSize)) content.
Proof.
  intros Hcs. induction k as [|k IH].
  - reflexivity.
  - rewrite seq_S, map_app, concat_app, IH. simpl. rewrite app_nil_r.
    unfold fragment_at.
    rewrite take_app_slice by nia. f_equal. lia.
Qed.

(** C3: for every content, empty or not, and every numChunks >= 1, the
    fragments of [splitContent], concatenated in order, are the content;
    there are numChunks of them, fragment i is the slice at offsets
    [i*chunkSize, i*chunkSize + chunkSize) and starts exactly where the
    fragments before it end, so no two overlap; with numChunks = 1 the
    only fragment is the whole content. *)
Theorem splitContent_round_trip (content : JsString) (numChunks : Z) :
  1 <= numChunks ->
  let fragments := FileManager.splitContent content numChunks in
  let chunkSize := ceil_div (Z.of_nat (length content)) numChunks in
  concat fragments = content
  /\ Z.of_nat (length fragments) = numChunks
  /\ (forall i : nat, Z.of_nat i < numChunks ->
        fragments !! i = Some (fragment_at content chunkSize i)
        /\ concat (take i fragments)
           = take (Z.to_nat (Z.of_nat i * chunkSize)) content)
  /\ (numChunks = 1 -> fragments = [content]).
Proof.
  intros Hn fragments chunkSize.
  assert (Hspec := ceil_div_spec (Z.of_nat (length content)) numChunks
                     ltac:(lia)).
  fold chunkSize in Hspec.
  assert (Hcs : 0 <= chunkSize) by nia.
  assert (Hfr : fragments
                = map (fragment_at content chunkSize)
                      (seq 0 (Z.to_nat numChunks)))
    by apply splitContent_map.
  repeat split.
  - rewrite Hfr, concat_fragments by assumption.
    apply take_ge. nia.
  - rewrite Hfr, length_map, length_seq. lia.
  - rewrite Hfr, list_lookup_fmap, lookup_seq_lt by lia. reflexivity.
  - rewrite Hfr, <- fmap_take, take_seq, Nat.min_l by lia.
    now apply concat_fragments.
  - intros ->. rewrite Hfr.
    assert (chunkSize = Z.of_nat (length content)) as ->
      by (unfold chunkSize, ceil_div; rewrite Z.div_1_r; lia).
    change (seq 0 (Z.to_nat 1)) with [0%nat]. simpl map.
    unfold fragment_at. change (Z.of_nat 0) with 0.
    rewrite Z.mul_0_l, Z.add_0_l. now rewrite slice_whole.
Qed.

(** C3, at an input: seven characters in three chunks. *)
Lemma splitContent_round_trip_witness :
  1 <= 3
  /\ concat (FileManager.splitContent (lit "abcdefg") 3) = lit "abcdefg".
Proof.
  split; [lia |].
  exact (proj1 (splitContent_round_trip (lit "abcdefg") 3 ltac:(lia))).
Defined.

(** ** The content size analyzer *)

Lemma utf8_length_nonneg (s : JsString) : 0 <= utf8_length s.
Proof.
  induction s as [s IH] using (induction_ltof1 _ (@length N)).
  unfold ltof in IH.
  destruct s as [|c rest]; simpl; [lia|].
  pose proof (IH rest ltac:(simpl; lia)) as Hrest.
  destruct (c <? 128)%N; [lia|].
  destruct (c <? 2048)%N; [lia|].
  destruct (is_high_surrogate c); [|lia].
  destruct rest as [|d rest']; [lia|].
  pose proof (IH rest' ltac:(simpl; lia)) as Hrest'.
  destruct (is_low_surrogate d); lia.
Qed.

(** C4, refuted as stated: the analysis of the empty content needs no
    chunking, and its chunk count is 0, not 1. *)
Lemma analyzeContent_empty_counterexample :
  let a := FileManager.analyzeContent FileManager.new [] in
  FileManager.size a <= FileManager.CHUNK_SIZE FileManager.new
  /\ FileManager.requiresChunking a = false
  /\ FileManager.chunks a = 0
  /\ FileManager.chunks a <> 1.
Proof.
  simpl. repeat split; [lia | discriminate].
Qed.

(** C4, amended: the analyzer reports the UTF-8 byte size; requiresChunking
    holds exactly when the size exceeds CHUNK_SIZE; chunks is
    ceil(size / CHUNK_SIZE) for every content, chunked or not, which is 1
    for a non-empty content of at most CHUNK_SIZE bytes and 0 for the
    empty content. *)
Theorem analyzeContent_chunks (this : FileManager.t) (content : JsString) :
  0 < FileManager.CHUNK_SIZE this ->
  let a := FileManager.analyzeContent this content in
  let limit := FileManager.CHUNK_SIZE this in
  FileManager.size a = utf8_length content
  /\ (FileManager.requiresChunking a = true <-> limit < FileManager.size a)
  /\ limit * (FileManager.chunks a - 1) < FileManager.size a
       <= limit * FileManager.chunks a
  /\ (0 < FileManager.size a <= limit ->
        FileManager.requiresChunking a = false /\ FileManager.chunks a = 1)
  /\ (content = [] ->
        FileManager.size a = 0
        /\ FileManager.requiresChunking a = false
        /\ FileManager.chunks a = 0).
Proof.
  intros Hlimit a limit. subst a limit. simpl.
  pose proof (ceil_div_spec (utf8_length content)
                (FileManager.CHUNK_SIZE this) Hlimit) as Hceil.
  split; [reflexivity|].
  split; [rewrite Z.gtb_ltb, Z.ltb_lt; reflexivity|].
  split; [exact Hceil|].
  split.
  - intros Hsmall. split.
    + rewrite Z.gtb_ltb. apply Z.ltb_ge. lia.
    + apply ceil_div_unique; lia.
  - intros ->. simpl. split; [reflexivity|]. split.
    + rewrite Z.gtb_ltb. apply Z.ltb_ge. lia.
    + apply ceil_div_unique; lia.
Qed.

(** C4 amended, at an input: a five-byte content under the default
    configuration. *)
Lemma analyzeContent_chunks_witness :
  0 < FileManager.CHUNK_SIZE FileManager.new
  /\ FileManager.chunks (FileManager.analyzeContent FileManager.new
                           (lit "hello")) = 1.
Proof.
  split; [reflexivity|].
  pose proof (analyzeContent_chunks FileManager.new (lit "hello")
                ltac:(reflexivity)) as H.
  simpl in H.
  apply (proj1 (proj2 (proj2 (proj2 H)))). 
  split; reflexivity || (vm_compute; discriminate).
Defined.

(** ** Cache eviction *)

Lemma expired_number (h : Host) (now maxAgeMs : Z)
    (data : FileManager.CacheEntry) :
  FileManager.expired h now (JNum maxAgeMs) data
  = (now - FileManager.timestamp data >? maxAgeMs).
Proof. unfold FileManager.expired. simpl. apply number_gt_inject_Z. Qed.

(** C9: [clearCache(maxAgeMs)] returns normally and removes exactly the
    entries whose age, the clock reading minus the stored timestamp, is
    strictly greater than maxAgeMs; an entry whose age equals maxAgeMs is
    kept; when the argument is left out maxAgeMs is 3,600,000. *)
Theorem clearCache_evicts_strictly_older (h : Host) (this : FileManager.t)
    (maxAgeMs : Z) :
  let now := Date_now h (now_reads h) in
  let r := FileManager.clearCache (JNum maxAgeMs) h this in
  r.1.1 = Ok tt
  /\ (forall path,
        FileManager.fileCache r.2 !! path
        = match FileManager.fileCache this !! path with
          | Some data =>
              if now - FileManager.timestamp data >? maxAgeMs
              then None else Some data
          | None => None
          end)
  /\ (forall path data,
        FileManager.fileCache this !! path = Some data ->
        now - FileManager.timestamp data = maxAgeMs ->
        FileManager.fileCache r.2 !! path = Some data)
  /\ FileManager.clearCache JUndefined h this
     = FileManager.clearCache (JNum 3600000) h this.
Proof.
  intros now r.
  assert (Hlookup : forall path,
    FileManager.fileCache r.2 !! path
    = match FileManager.fileCache this !! path with
      | Some data =>
          if now - FileManager.timestamp data >? maxAgeMs
          then None else Some data
      | None => None
      end).
  { intros path. subst r. simpl.
    rewrite map_lookup_filter.
    destruct (FileManager.fileCache this !! path) as [data|]; simpl;
      [|reflexivity].
    rewrite expired_number. fold now.
    destruct (now - FileManager.timestamp data >? maxAgeMs);
      case_guard; simpl; congruence. }
  split; [reflexivity|].
  split; [exact Hlookup|].
  split; [|reflexivity].
  intros path data Hin Hage.
  rewrite Hlookup, Hin.
  replace (now - FileManager.timestamp data >? maxAgeMs) with false;
    [reflexivity|].
  symmetry. rewrite Z.gtb_ltb. apply Z.ltb_ge. lia.
Qed.

(** C9, at an input: an entry written exactly one hour before the clock
    reading survives the default eviction. *)
Lemma clearCache_evicts_strictly_older_witness :
  let this := example_cache (1700000000000 - 3600000) in
  let data := FileManager.mkCacheEntry (lit "hello")
                (1700000000000 - 3600000) (JObj []) in
  FileManager.fileCache this !! lit "out.txt" = Some data
  /\ Date_now example_host (now_reads example_host)
       - FileManager.timestamp data = 3600000
  /\ FileManager.fileCache
       (FileManager.clearCache (JNum 3600000) example_host this).2
       !! lit "out.txt" = Some data.
Proof.
  intros this data.
  assert (Hin : FileManager.fileCache this !! lit "out.txt" = Some data)
    by (vm_compute; reflexivity).
  assert (Hage : Date_now example_host (now_reads example_host)
                   - FileManager.timestamp data = 3600000)
    by reflexivity.
  split; [exact Hin|]. split; [exact Hage|].
  exact (proj1 (proj2 (proj2
           (clearCache_evicts_strictly_older example_host this 3600000)))
           (lit "out.txt") data Hin Hage).
Defined.

(** ** The retry executor *)

Section RetryLoop.

Variable this : ErrorHandler.t.
Variable operation : nat -> Outcome JsVal.
Variable context : list (string * JsVal).

(** What [enhanceError] builds from an error of another class than
    [WorkerError]. *)
Lemma enhanceError_wraps {S} (error : JsError)
    (ctx : list (string * JsVal)) (h : Host) (s : S) :
  instanceof error ClsWorkerError = false ->
  ErrorHandler.enhanceError error ctx h s
  = (Ok (mkJsError ClsWorkerError (lit "WorkerError") (message error)
           None (Some ctx) (Some (Date_now h (now_reads h))) None None),
     clock_read h, s).
Proof.
  intros Hcls. unfold ErrorHandler.enhanceError. rewrite Hcls. reflexivity.
Qed.

(** One iteration of the loop. *)
Lemma retry_loop_step rounds attempt delay h eff :
  ErrorHandler.retry_loop this operation context (S rounds) attempt delay
    h eff
  = match operation (ErrorHandler.invocations eff) with
    | Ok v => (Ok v, h, invoked eff)
    | Throw error =>
        if negb (ErrorHandler.isRetryable error) then
          bind (ErrorHandler.enhanceError error context) throw
               h (invoked eff)
        else if attempt =? ErrorHandler.maxRetries this then
          bind (ErrorHandler.enhanceError
                  (new_Error (lit "Operation failed after "
                                ++ number_to_string (ErrorHandler.maxRetries this)
                                ++ lit " attempts: " ++ message error))
                  (set_prop "finalAttempt" (JBool true) context))
               throw h (invoked eff)
        else
          ErrorHandler.retry_loop this operation context rounds
            (attempt + 1) (Z.min (delay * 2) (ErrorHandler.maxDelay this)) h
            (ErrorHandler.mkEffects
               (S (ErrorHandler.invocations eff))
               (ErrorHandler.sleeps eff ++ [delay])
               (ErrorHandler.warnings eff
                  ++ [lit "Attempt " ++ number_to_string attempt
                        ++ lit " failed, retrying in "
                        ++ number_to_string delay ++ lit "ms..."]))
    end.
Proof.
  cbn [ErrorHandler.retry_loop]. unfold try_catch, ErrorHandler.invoke.
  destruct (operation (ErrorHandler.invocations eff)) as [v|error];
    [reflexivity|].
  destruct (ErrorHandler.isRetryable error); cbn [negb]; [|reflexivity].
  destruct (attempt =? ErrorHandler.maxRetries this); reflexivity.
Qed.

(** Throwing an enhanced error leaves the operation's record alone. *)
Lemma enhance_and_throw_effects error ctx h (eff : ErrorHandler.Effects) :
  (bind (ErrorHandler.enhanceError error ctx) (@throw _ JsVal) h eff).2
  = eff.
Proof. reflexivity. Qed.

(** The waits of a run follow the doubling of [delay]. *)
Lemma retry_loop_waits rounds : forall attempt delay h eff,
  exists n : nat,
    (n <= rounds)%nat
    /\ ErrorHandler.sleeps
         (ErrorHandler.retry_loop this operation context rounds attempt
            delay h eff).2
       = ErrorHandler.sleeps eff ++ map (backoff (ErrorHandler.maxDelay this) delay) (seq 0 n).
Proof.
  induction rounds as [|rounds IH]; intros attempt delay h eff.
  - exists 0%nat. simpl. split; [lia | now rewrite app_nil_r].
  - rewrite retry_loop_step.
    destruct (operation (ErrorHandler.invocations eff)) as [v|error].
    { exists 0%nat. simpl. split; [lia | now rewrite app_nil_r]. }
    destruct (negb (ErrorHandler.isRetryable error)).
    { exists 0%nat. rewrite enhance_and_throw_effects. simpl.
      split; [lia | now rewrite app_nil_r]. }
    destruct (attempt =? ErrorHandler.maxRetries this).
    { exists 0%nat. rewrite enhance_and_throw_effects. simpl.
      split; [lia | now rewrite app_nil_r]. }
    match goal with
    | |- context [ErrorHandler.retry_loop _ _ _ _ ?a ?d ?h' ?e'] =>
        destruct (IH a d h' e') as (n & Hn & Hs)
    end.
    exists (S n). split; [lia|].
    rewrite Hs. simpl ErrorHandler.sleeps.
    rewrite <- app_assoc. f_equal. simpl. f_equal.
    rewrite <- seq_shift, map_map. reflexivity.
Qed.

End RetryLoop.

Lemma backoff_closed_form (maxDelay : Z) (k : nat) : forall delay,
  0 < delay <= maxDelay ->
  backoff maxDelay delay k = Z.min (delay * 2 ^ Z.of_nat k) maxDelay.
Proof.
  induction k as [|k IH]; intros delay Hd.
  - simpl. rewrite Z.mul_1_r. lia.
  - simpl backoff. rewrite IH by lia.
    rewrite Nat2Z.inj_succ, Z.pow_succ_r by lia.
    assert (Hpow : 1 <= 2 ^ Z.of_nat k) by (apply Z.pow_le_mono_r with (b := 0); lia).
    destruct (Z.le_gt_cases (delay * 2) maxDelay).
    + rewrite (Z.min_l (delay * 2)) by lia. f_equal. lia.
    + rewrite (Z.min_r (delay * 2)) by lia. nia.
Qed.

(** C5: under the default configuration (baseDelay 1000, maxDelay 10000,
    maxRetries 3) every wait of a run is min(baseDelay * 2^(k-1), maxDelay)
    for the k-th failed attempt it follows (position k-1 in the list of
    waits); a retryable failure of attempt 1 is followed by a wait of 1000,
    retryable failures of attempts 1 and 2 by waits of 1000 and then 2000,
    and a run waits at most twice. *)
Theorem withRetry_backoff_schedule (operation : nat -> Outcome JsVal)
    (context : list (string * JsVal)) (h : Host) :
  let this := ErrorHandler.new ErrorHandler.no_options in
  let waits :=
    ErrorHandler.sleeps
      (ErrorHandler.withRetry this operation context h
         ErrorHandler.no_effects).2 in
  (ErrorHandler.baseDelay this, ErrorHandler.maxDelay this,
   ErrorHandler.maxRetries this) = (1000, 10000, 3)
  /\ (forall (k : nat) (d : Z),
        waits !! k = Some d ->
        d = Z.min (ErrorHandler.baseDelay this * 2 ^ Z.of_nat k)
                  (ErrorHandler.maxDelay this))
  /\ (forall e1,
        operation 0%nat = Throw e1 -> ErrorHandler.isRetryable e1 = true ->
        waits !! 0%nat = Some 1000)
  /\ (forall e1 e2,
        operation 0%nat = Throw e1 -> ErrorHandler.isRetryable e1 = true ->
        operation 1%nat = Throw e2 -> ErrorHandler.isRetryable e2 = true ->
        waits = [1000; 2000])
  /\ (length waits <= 2)%nat.
Proof.
  intros this waits.
  split; [reflexivity|].
  split.
  { intros k d Hk. subst waits. unfold ErrorHandler.withRetry in Hk.
    destruct (retry_loop_waits this operation context
                (Z.to_nat (ErrorHandler.maxRetries this)) 1
                (ErrorHandler.baseDelay this) h ErrorHandler.no_effects)
      as (n & _ & Hs).
    rewrite Hs in Hk. simpl ErrorHandler.sleeps in Hk.
    rewrite app_nil_l, list_lookup_fmap in Hk.
    destruct (seq 0 n !! k) as [j|] eqn:Hj; [|discriminate].
    apply lookup_seq in Hj as [-> _]. simpl in Hk.
    injection Hk as <-.
    apply backoff_closed_form. simpl. lia. }
  subst waits. unfold ErrorHandler.withRetry.
  change (Z.to_nat (ErrorHandler.maxRetries this)) with 3%nat.
  change (ErrorHandler.baseDelay this) with 1000.
  rewrite retry_loop_step. simpl ErrorHandler.invocations.
  change (1 =? ErrorHandler.maxRetries this) with false.
  change (Z.min (1000 * 2) (ErrorHandler.maxDelay this)) with 2000.
  split; [|split].
  - intros e1 H1 R1. rewrite H1, R1. cbn [negb].
    rewrite retry_loop_step. simpl ErrorHandler.invocations.
    destruct (operation 1%nat) as [v|e2]; [reflexivity|].
    destruct (ErrorHandler.isRetryable e2); cbn [negb]; [|reflexivity].
    change (1 + 1 =? ErrorHandler.maxRetries this) with false. cbv iota.
    rewrite retry_loop_step. simpl ErrorHandler.invocations.
    destruct (operation 2%nat) as [v|e3]; [reflexivity|].
    destruct (ErrorHandler.isRetryable e3); reflexivity.
  - intros e1 e2 H1 R1 H2 R2. rewrite H1, R1. cbn [negb].
    rewrite retry_loop_step. simpl ErrorHandler.invocations.
    rewrite H2, R2. cbn [negb].
    change (1 + 1 =? ErrorHandler.maxRetries this) with false. cbv iota.
    rewrite retry_loop_step. simpl ErrorHandler.invocations.
    destruct (operation 2%nat) as [v|e3]; [reflexivity|].
    destruct (ErrorHandler.isRetryable e3); reflexivity.
  - destruct (operation 0%nat) as [v|e1]; [simpl; lia|].
    destruct (ErrorHandler.isRetryable e1); cbn [negb]; [|simpl; lia].
    rewrite retry_loop_step. simpl ErrorHandler.invocations.
    destruct (operation 1%nat) as [v|e2]; [simpl; lia|].
    destruct (ErrorHandler.isRetryable e2); cbn [negb]; [|simpl; lia].
    change (1 + 1 =? ErrorHandler.maxRetries this) with false. cbv iota.
    rewrite retry_loop_step. simpl ErrorHandler.invocations.
    destruct (operation 2%nat) as [v|e3]; [simpl; lia|].
    destruct (ErrorHandler.isRetryable e3); simpl; lia.
Qed.

(** C5, at an input: an operation that fails with a retryable error at
    every attempt waits 1000 ms and then 2000 ms. *)
Lemma withRetry_backoff_schedule_witness :
  let operation := always_throws example_retryable_error in
  operation 0%nat = Throw example_retryable_error
  /\ operation 1%nat = Throw example_retryable_error
  /\ ErrorHandler.isRetryable example_retryable_error = true
  /\ ErrorHandler.sleeps
       (ErrorHandler.withRetry (ErrorHandler.new ErrorHandler.no_options)
          operation example_context example_host
          ErrorHandler.no_effects).2
     = [1000; 2000].
Proof.
  intros operation.
  split; [reflexivity|]. split; [reflexivity|]. split; [reflexivity|].
  exact (proj1 (proj2 (proj2 (proj2
           (withRetry_backoff_schedule operation example_context
              example_host))))
           example_retryable_error example_retryable_error
           eq_refl eq_refl eq_refl eq_refl).
Defined.

Lemma validation_error_not_retryable (error : JsError) :
  instanceof error ClsValidationError = true ->
  ErrorHandler.isRetryable error = false
  /\ instanceof error ClsWorkerError = false.
Proof.
  unfold ErrorHandler.isRetryable, instanceof.
  destruct (cls error); intros H; try discriminate H. split; reflexivity.
Qed.




(** C7, refuted as stated: a validation error with one detail string,
    thrown inside an operation run under [withRetry], surfaces as an error
    of class [WorkerError] that has no [details]. *)
Lemma withRetry_drops_details_counterexample :
  let r := ErrorHandler.withRetry (ErrorHandler.new ErrorHandler.no_options)
             (always_throws example_validation_error) example_context
             example_host ErrorHandler.no_effects in
  details example_validation_error = Some [lit "info.title is required"]
  /\ exists surfaced,
       r.1.1 = Throw surfaced
       /\ cls surfaced = ClsWorkerError
       /\ details surfaced = None
       /\ surfaced <> set_timestamp 1700000000000
                        (set_context example_context
                           example_validation_error).
Proof.
  split; [reflexivity|].
  eexists. split; [reflexivity|].
  split; [reflexivity|]. split; [reflexivity|].
  intros H. apply (f_equal details) in H. discriminate H.
Qed.

(** A run in which every remaining attempt fails with a retryable error:
    the loop uses up its rounds and throws the terminal error built from
    the last failure. *)
Lemma retry_loop_exhausts (this : ErrorHandler.t)
    (operation : nat -> Outcome JsVal) (supplied : list (string * JsVal))
    (rounds : nat) : forall attempt delay h eff,
  attempt + Z.of_nat rounds = ErrorHandler.maxRetries this ->
  (forall k : nat, (k <= rounds)%nat ->
     exists e, operation (ErrorHandler.invocations eff + k)%nat = Throw e
               /\ ErrorHandler.isRetryable e = true) ->
  let r := ErrorHandler.retry_loop this operation supplied (S rounds)
             attempt delay h eff in
  ErrorHandler.invocations r.2
  = (ErrorHandler.invocations eff + S rounds)%nat
  /\ length (ErrorHandler.sleeps r.2)
     = (length (ErrorHandler.sleeps eff) + rounds)%nat
  /\ exists last surfaced,
       operation (ErrorHandler.invocations eff + rounds)%nat = Throw last
       /\ r.1.1 = Throw surfaced
       /\ cls surfaced = ClsWorkerError
       /\ message surfaced
          = lit "Operation failed after "
              ++ number_to_string (ErrorHandler.maxRetries this)
              ++ lit " attempts: " ++ message last
       /\ context surfaced
          = Some (set_prop "finalAttempt" (JBool true) supplied).
Proof.
  induction rounds as [|rounds IH]; intros attempt delay h eff Hsync Hfail r;
    subst r; rewrite retry_loop_step.
  - destruct (Hfail 0%nat ltac:(lia)) as (e & He & Hre).
    rewrite Nat.add_0_r in He. rewrite He, Hre. cbn [negb].
    replace (attempt =? ErrorHandler.maxRetries this) with true
      by (symmetry; apply Z.eqb_eq; lia).
    unfold bind. rewrite enhanceError_wraps by reflexivity.
    simpl. split; [lia|]. split; [lia|].
    exists e. eexists. rewrite Nat.add_0_r.
    split; [exact He|]. repeat split.
  - destruct (Hfail 0%nat ltac:(lia)) as (e & He & Hre).
    rewrite Nat.add_0_r in He. rewrite He, Hre. cbn [negb].
    replace (attempt =? ErrorHandler.maxRetries this) with false
      by (symmetry; apply Z.eqb_neq; lia).
    match goal with
    | |- context [ErrorHandler.retry_loop _ _ _ _ ?a ?d ?h' ?e'] =>
        specialize (IH a d h' e')
    end.
    simpl ErrorHandler.invocations in IH.
    destruct IH as (Hinv & Hsl & last & surfaced & Hlast & Hres & Hrest).
    + lia.
    + intros k Hk. destruct (Hfail (S k) ltac:(lia)) as (e' & He' & Hre').
      exists e'. split; [|exact Hre'].
      rewrite <- He'. f_equal. lia.
    + split; [rewrite Hinv; lia|].
      split.
      { rewrite Hsl. simpl ErrorHandler.sleeps. rewrite length_app.
        simpl. lia. }
      exists last, surfaced. split; [|split; assumption].
      rewrite <- Hlast. f_equal. lia.
Qed.

(** C8: when each of the maxRetries attempts of an operation run under
    [withRetry] fails with a retryable error, the operation is invoked
    exactly maxRetries times and the run throws a wrapped error whose
    message is "Operation failed after <maxRetries> attempts: " followed
    by the message of the last error thrown. *)
Theorem withRetry_exhaustion (this : ErrorHandler.t)
    (operation : nat -> Outcome JsVal) (supplied : list (string * JsVal))
    (h : Host) :
  1 <= ErrorHandler.maxRetries this ->
  (forall k : nat, Z.of_nat k < ErrorHandler.maxRetries this ->
     exists e, operation k = Throw e
               /\ ErrorHandler.isRetryable e = true) ->
  let r := ErrorHandler.withRetry this operation supplied h
             ErrorHandler.no_effects in
  Z.of_nat (ErrorHandler.invocations r.2) = ErrorHandler.maxRetries this
  /\ exists last surfaced,
       operation (Z.to_nat (ErrorHandler.maxRetries this - 1)) = Throw last
       /\ r.1.1 = Throw surfaced
       /\ cls surfaced = ClsWorkerError
       /\ message surfaced
          = lit "Operation failed after "
              ++ number_to_string (ErrorHandler.maxRetries this)
              ++ lit " attempts: " ++ message last
       /\ context surfaced
          = Some (set_prop "finalAttempt" (JBool true) supplied).
Proof.
  intros Hmax Hfail r. subst r. unfold ErrorHandler.withRetry.
  destruct (Z.to_nat (ErrorHandler.maxRetries this)) as [|rounds] eqn:Hr;
    [lia|].
  destruct (retry_loop_exhausts this operation supplied rounds 1
              (ErrorHandler.baseDelay this) h ErrorHandler.no_effects)
    as (Hinv & _ & last & surfaced & Hlast & Hrest).
  - lia.
  - intros k Hk. simpl. apply Hfail. lia.
  - split; [rewrite Hinv; simpl; lia|].
    exists last, surfaced. split; [|exact Hrest].
    rewrite <- Hlast. simpl. f_equal. lia.
Qed.

(** C8, at an input: three retryable failures under the default
    configuration. *)
Lemma withRetry_exhaustion_witness :
  1 <= ErrorHandler.maxRetries (ErrorHandler.new ErrorHandler.no_options)
  /\ (forall k : nat,
        Z.of_nat k
        < ErrorHandler.maxRetries (ErrorHandler.new ErrorHandler.no_options) ->
        exists e, always_throws example_retryable_error k = Throw e
                  /\ ErrorHandler.isRetryable e = true)
  /\ Z.of_nat
       (ErrorHandler.invocations
          (ErrorHandler.withRetry (ErrorHandler.new ErrorHandler.no_options)
             (always_throws example_retryable_error) example_context
             example_host ErrorHandler.no_effects).2)
     = 3.
Proof.
  assert (Hmax : 1 <= ErrorHandler.maxRetries
                        (ErrorHandler.new ErrorHandler.no_options))
    by (simpl; lia).
  assert (Hfail : forall k : nat,
             Z.of_nat k
             < ErrorHandler.maxRetries
                 (ErrorHandler.new ErrorHandler.no_options) ->
             exists e, always_throws example_retryable_error k = Throw e
                       /\ ErrorHandler.isRetryable e = true).
  { intros k _. exists example_retryable_error. split; reflexivity. }
  split; [exact Hmax|]. split; [exact Hfail|].
  exact (proj1 (withRetry_exhaustion
                  (ErrorHandler.new ErrorHandler.no_options)
                  (always_throws example_retryable_error) example_context
                  example_host Hmax Hfail)).
Defined.

(** ** Completion tracking and finalize *)

(** C1, refuted as stated: a success delivered a second time for chunk 0,
    already recorded, raises the operation's completed count from 1 to 2
    while the recorded indices stay [0]; and finalize, called on that
    operation with one of three chunks recorded, writes the original path
    and discards the record. *)
Lemma updateChunkProgress_double_count_counterexample :
  let again :=
    ChunkManager.updateChunkProgress (lit "op") 0
      (example_result "out.part0.txt" 40000)
      example_host example_one_written in
  let finalized :=
    ChunkManager.finalizeChunkedOperation (lit "op") (lit "out.txt")
      example_host example_one_written in
  (ChunkManager.getOperationStatus (lit "op")
     example_host example_one_written).1.1
  = Ok (Some (ChunkManager.mkStatus 3 1 false))
  /\ (ChunkManager.getOperationStatus (lit "op") again.1.2 again.2).1.1
     = Ok (Some (ChunkManager.mkStatus 3 2 false))
  /\ (map fst ∘ ChunkManager.chunks) <$>
       (ChunkManager.pendingChunks again.2 !! lit "op")
     = Some [0]
  /\ is_Some (FileManager.fileCache (ChunkManager.fileManager finalized.2)
                !! lit "out.txt")
  /\ ChunkManager.pendingChunks finalized.2 !! lit "op" = None.
Proof.
  vm_compute. repeat split; eauto.
Qed.

Lemma map_set_known_index {V} (k : Z) (v : V) (m : list (Z * V)) :
  In k (map fst m) -> map fst (map_set k v m) = map fst m.
Proof.
  induction m as [|[k' v'] m IH]; simpl; [tauto|].
  intros Hin. destruct (Z.eqb_spec k k') as [->|Hne]; simpl; [reflexivity|].
  f_equal. apply IH. destruct Hin; congruence.
Qed.

Lemma concatenateChunks_pure (chunks : list JsVal) (h : Host)
    (this : ChunkManager.t) :
  exists o, ChunkManager.concatenateChunks chunks h this = (o, h, this).
Proof.
  unfold ChunkManager.concatenateChunks, bind, get_host, of_outcome, ret.
  destruct (Array_sort _ chunks) as [sorted|e]; [|eauto].
  destruct (ChunkManager.map_content sorted); eauto.
Qed.

Lemma finalize_unknown (operationId originalPath : JsString) (h : Host)
    (this : ChunkManager.t) :
  ChunkManager.pendingChunks this !! operationId = None ->
  ChunkManager.finalizeChunkedOperation operationId originalPath h this
  = (Ok JUndefined, h, this).
Proof.
  intros Hunknown.
  unfold ChunkManager.finalizeChunkedOperation, bind, get_state.
  now rewrite Hunknown.
Qed.

Lemma finalize_known (operationId originalPath : JsString) (h : Host)
    (this : ChunkManager.t) (operation : ChunkManager.Operation) :
  ChunkManager.pendingChunks this !! operationId = Some operation ->
  match ChunkManager.concatenateChunks
          (map snd (ChunkManager.chunks operation)) h this with
  | (Ok merged, _, _) =>
      exists h' fm,
        ChunkManager.finalizeChunkedOperation operationId originalPath h this
        = (Ok (JStr merged.1), h',
           ChunkManager.mk fm
             (delete operationId (ChunkManager.pendingChunks this)))
        /\ FileManager.content <$> (FileManager.fileCache fm !! originalPath)
           = Some merged.1
  | (Throw e, _, _) =>
      ChunkManager.finalizeChunkedOperation operationId originalPath h this
      = (Throw e, h, this)
  end.
Proof.
  intros Hknown.
  destruct (concatenateChunks_pure
              (map snd (ChunkManager.chunks operation)) h this) as [o Ho].
  unfold ChunkManager.finalizeChunkedOperation, bind, get_state.
  rewrite Hknown, Ho.
  destruct o as [merged|e]; [|reflexivity].
  simpl. eexists _, _. split; [reflexivity|].
  simpl. now rewrite lookup_insert_eq.
Qed.

(** ** Finalize on the results of the chunk writes *)

(** On objects that carry [metadata.index] and [content], as the cache
    entries of the chunks do, the merge is the concatenation in index
    order. *)
Lemma concatenateChunks_on_cache_entries :
  (ChunkManager.concatenateChunks
     [example_entry 2 "ghi"; example_entry 0 "abc"; example_entry 1 "def"]
     example_host ChunkManager.new).1.1
  = Ok (lit "abcdefghi",
        [example_entry 0 "abc"; example_entry 1 "def"; example_entry 2 "ghi"]).
Proof. vm_compute. reflexivity. Qed.

(** The merge throws as soon as two results are compared: a write result
    has no [metadata]. *)
Lemma concatenateChunks_throws_on_results (a b : JsVal) (rest : list JsVal)
    (h : Host) (this : ChunkManager.t) :
  is_undefined a = false -> is_undefined b = false ->
  get_prop a "metadata" = Ok JUndefined ->
  (ChunkManager.concatenateChunks (a :: b :: rest) h this).1.1
  = Throw (type_error
             "Cannot read properties of undefined (reading 'index')").
Proof.
  intros Hda Hdb Ha.
  unfold ChunkManager.concatenateChunks, bind, get_host, of_outcome.
  unfold Array_sort. cbn [List.filter]. rewrite Hda, Hdb.
  cbn [negb Array_sort_from sort_insert].
  unfold ChunkManager.by_metadata_index. rewrite Ha. reflexivity.
Qed.

(** C2, on the 120,000-byte content under the default configuration: the
    analysis asks for 3 chunks and the three fragments of 40,000 bytes,
    are written to the chunk paths;
    recording the third write throws, so [writeContentInChunks] fails
    before finalize and nothing is written at the original path; finalize
    called afterwards throws while it sorts the write results, and again
    nothing is written at the original path and the operation stays
    pending. *)
Theorem chunked_write_does_not_merge :
  let analysis := FileManager.analyzeContent FileManager.new example_content in
  let written := after_chunked_write in
  let cache s := FileManager.fileCache (ChunkManager.fileManager s) in
  let finalized :=
    ChunkManager.finalizeChunkedOperation example_operationId (lit "out.txt")
      written.1.2 written.2 in
  (FileManager.size analysis, FileManager.requiresChunking analysis,
   FileManager.chunks analysis) = (120000, true, 3)
  /\ (stored_size <$> cache written.2 !! lit "out.part0.txt",
      stored_size <$> cache written.2 !! lit "out.part1.txt",
      stored_size <$> cache written.2 !! lit "out.part2.txt")
     = (Some 40000, Some 40000, Some 40000)
  /\ written.1.1
     = Throw (type_error "this.handleCompletedOperation is not a function")
  /\ cache written.2 !! lit "out.txt" = None
  /\ (ChunkManager.completed <$>
        ChunkManager.pendingChunks written.2 !! example_operationId)
     = Some 3
  /\ finalized.1.1
     = Throw (type_error
                "Cannot read properties of undefined (reading 'index')")
  /\ cache finalized.2 !! lit "out.txt" = None
  /\ (ChunkManager.completed <$>
        ChunkManager.pendingChunks finalized.2 !! example_operationId)
     = Some 3.
Proof.
  intros analysis written cache finalized.
  repeat (split; [vm_compute; reflexivity|]).
  vm_compute; reflexivity.
Qed.

(** ** Cleanup of an operation *)

Lemma clearCache_not_a_number (path : JsString) (h : Host)
    (this : FileManager.t) :
  forallb may_occur_in_numeric_literal path = false ->
  FileManager.clearCache (JStr path) h this = (Ok tt, clock_read h, this).
Proof.
  intros Hnan.
  unfold FileManager.clearCache, bind, now, get_host, modify.
  f_equal. destruct this as [cs wt cache]. unfold FileManager.set_fileCache.
  simpl. f_equal.
  apply map_filter_id. intros p data _. simpl.
  unfold FileManager.expired, ToNumber, StringToNumber.
  now rewrite Hnan.
Qed.

Lemma getChunkPath_not_a_number (originalPath : JsString) (index : Z) :
  forallb may_occur_in_numeric_literal
    (FileManager.getChunkPath originalPath index) = false.
Proof.
  unfold FileManager.getChunkPath.
  rewrite forallb_app.
  change (lit ".part") with ([46; 112; 97; 114; 116]%N).
  cbn [app forallb].
  replace (may_occur_in_numeric_literal 112) with false
    by (vm_compute; reflexivity).
  cbn [andb]. now rewrite !andb_false_r.
Qed.

(** [clearCache] called with a chunk path removes nothing. *)
Lemma clearCache_chunk_path_keeps_all (originalPath : JsString) (index : Z)
    (h : Host) (this : FileManager.t) :
  (FileManager.clearCache (JStr (FileManager.getChunkPath originalPath index))
     h this).2 = this.
Proof.
  rewrite clearCache_not_a_number by apply getChunkPath_not_a_number.
  reflexivity.
Qed.

Lemma cleanupOperation_unknown (operationId : JsString) (h : Host)
    (this : ChunkManager.t) :
  ChunkManager.pendingChunks this !! operationId = None ->
  ChunkManager.cleanupOperation operationId h this = (Ok tt, h, this).
Proof.
  intros Hunknown. unfold ChunkManager.cleanupOperation, bind, get_state.
  now rewrite Hunknown.
Qed.

(** C10, on the operation left pending by the chunked write of the
    120,000-byte content, with its three chunk results recorded:
    [cleanupOperation] returns normally and discards the operation record,
    and the cache still holds each of the three chunk entries with its
    40,000 characters; for an unknown
    operation id it changes nothing. *)
Theorem cleanupOperation_keeps_chunk_entries :
  let written := after_chunked_write in
  let cache s := FileManager.fileCache (ChunkManager.fileManager s) in
  let cleaned :=
    ChunkManager.cleanupOperation example_operationId written.1.2 written.2 in
  let unknown :=
    ChunkManager.cleanupOperation (lit "chunk_0_unknown")
      written.1.2 written.2 in
  ((map fst ∘ ChunkManager.chunks) <$>
     ChunkManager.pendingChunks written.2 !! example_operationId)
  = Some [0; 1; 2]
  /\ cleaned.1.1 = Ok tt
  /\ ChunkManager.pendingChunks cleaned.2 !! example_operationId = None
  /\ (stored_size <$> cache cleaned.2 !! lit "out.part0.txt",
      stored_size <$> cache cleaned.2 !! lit "out.part1.txt",
      stored_size <$> cache cleaned.2 !! lit "out.part2.txt")
     = (Some 40000, Some 40000, Some 40000)
  /\ unknown = (Ok tt, written.1.2, written.2).
Proof.
  intros written cache cleaned unknown.
  split; [vm_compute; reflexivity|].
  split; [vm_compute; reflexivity|].
  split; [vm_compute; reflexivity|].
  split; [vm_compute; reflexivity|].
  apply cleanupOperation_unknown. vm_compute; reflexivity.
Qed.


(** * Further properties of the file manager *)

(** ** Chunk paths *)

Lemma split_on_nonempty (c : N) (s : JsString) : split_on c s <> [].
Proof.
  destruct s as [|d rest]; simpl; [discriminate|].
  destruct (N.eqb d c); [discriminate|].
  destruct (split_on c rest); discriminate.
Qed.

Lemma split_on_app (c : N) (a b : JsString) :
  split_on c (a ++ c :: b) = split_on c a ++ split_on c b.
Proof.
  induction a as [|d a IH]; simpl.
  - now rewrite N.eqb_refl.
  - destruct (N.eqb d c); [now rewrite IH|].
    rewrite IH.
    pose proof (split_on_nonempty c a) as Hne.
    destruct (split_on c a) as [|p ps]; [contradiction|]. reflexivity.
Qed.

Lemma split_on_absent (c : N) (s : JsString) :
  ~ In c s -> split_on c s = [s].
Proof.
  induction s as [|d s IH]; simpl; [reflexivity|].
  intros Hnot. destruct (N.eqb_spec d c) as [->|_]; [tauto|].
  rewrite IH by tauto. reflexivity.
Qed.

Lemma join_strings_cons (sep p : JsString) (rest : list JsString) :
  rest <> [] ->
  join_strings sep (p :: rest) = p ++ sep ++ join_strings sep rest.
Proof. destruct rest; [contradiction | reflexivity]. Qed.

(** [s.split('.').join('.')] is [s]. *)
Lemma join_split_on (c : N) (s : JsString) :
  join_strings [c] (split_on c s) = s.
Proof.
  induction s as [|d s IH]; [reflexivity|].
  pose proof (split_on_nonempty c s) as Hne.
  simpl split_on. destruct (N.eqb_spec d c) as [->|_].
  - rewrite join_strings_cons by assumption. now rewrite IH.
  - destruct (split_on c s) as [|p ps]; [contradiction|].
    destruct ps as [|q ps].
    + simpl in *. now rewrite IH.
    + rewrite join_strings_cons by discriminate.
      rewrite join_strings_cons in IH by discriminate.
      rewrite <- IH. reflexivity.
Qed.

Lemma join_strings_snoc (sep : JsString) (parts : list JsString)
    (p : JsString) :
  parts <> [] ->
  join_strings sep (parts ++ [p]) = join_strings sep parts ++ sep ++ p.
Proof.
  induction parts as [|q parts IH]; [contradiction|]. intros _.
  destruct parts as [|r parts]; [reflexivity|].
  change ((q :: r :: parts) ++ [p]) with (q :: ((r :: parts) ++ [p])).
  rewrite join_strings_cons by (simpl; discriminate).
  rewrite IH by discriminate.
  rewrite (join_strings_cons sep q (r :: parts)) by discriminate.
  now rewrite <- !app_assoc.
Qed.

Lemma lit_dot : lit "." = [46%N].
Proof. reflexivity. Qed.

(** The path in terms of what [getChunkPath] takes apart: without a
    point the path is its own extension, otherwise it is the stem, a
    point and the extension. *)
Lemma path_stem_ext (originalPath : JsString) :
  let parts := split_on 46%N originalPath in
  let stem := join_strings (lit ".") (removelast parts) in
  let ext := List.last parts [] in
  (removelast parts = [] /\ originalPath = ext)
  \/ (removelast parts <> [] /\ originalPath = stem ++ lit "." ++ ext).
Proof.
  intros parts stem ext. subst stem ext.
  pose proof (join_split_on 46%N originalPath) as Hjoin. fold parts in Hjoin.
  pose proof (split_on_nonempty 46%N originalPath) as Hne. fold parts in Hne.
  rewrite (app_removelast_last [] Hne) in Hjoin.
  destruct (removelast parts) as [|p ps] eqn:Hinit.
  - left. split; [reflexivity|]. now rewrite <- Hjoin.
  - right. split; [discriminate|].
    rewrite <- Hjoin at 1. rewrite lit_dot.
    apply join_strings_snoc. discriminate.
Qed.

Lemma unlit_lit (s : string) :
  string_of_list_ascii (map ascii_of_N (lit s)) = s.
Proof.
  unfold lit. rewrite map_map.
  rewrite (map_ext _ id) by (intros a; apply ascii_N_embedding).
  rewrite map_id. apply string_of_list_ascii_of_string.
Qed.

Lemma number_to_string_inj (i j : Z) :
  number_to_string i = number_to_string j -> i = j.
Proof.
  unfold number_to_string. intros H.
  apply (f_equal (fun l => string_of_list_ascii (map ascii_of_N l))) in H.
  rewrite !unlit_lit in H.
  apply DecimalZ.to_int_inj.
  assert (Hnn : forall z, Z.to_int z <> Decimal.Pos Decimal.Nil
                          /\ Z.to_int z <> Decimal.Neg Decimal.Nil).
  { intros [|p|p]; simpl; split; try discriminate;
      intros [= Hp]; now apply DecimalPos.Unsigned.to_uint_nonnil in Hp. }
  pose proof (NilZero.isi (Z.to_int i) (proj1 (Hnn i)) (proj2 (Hnn i))) as Hi.
  pose proof (NilZero.isi (Z.to_int j) (proj1 (Hnn j)) (proj2 (Hnn j))) as Hj.
  rewrite H in Hi. congruence.
Qed.

(** X1: for a path that ends in a point and an extension without points,
    the chunk path keeps everything before the last point, then
    ".part<index>.", then the extension. *)
Theorem getChunkPath_keeps_extension (stem ext : JsString) (index : Z) :
  ~ In 46%N ext ->
  FileManager.getChunkPath (stem ++ lit "." ++ ext) index
  = stem ++ lit ".part" ++ number_to_string index ++ lit "." ++ ext.
Proof.
  intros Hext. unfold FileManager.getChunkPath.
  rewrite lit_dot. change ([46%N] ++ ext) with (46%N :: ext).
  rewrite split_on_app, (split_on_absent 46%N ext Hext).
  rewrite last_last, removelast_last, join_split_on. reflexivity.
Qed.

Lemma getChunkPath_keeps_extension_witness :
  ~ In 46%N (lit "json")
  /\ FileManager.getChunkPath (lit "specs/api.v2" ++ lit "." ++ lit "json") 3
     = lit "specs/api.v2.part3.json".
Proof.
  assert (Hext : ~ In 46%N (lit "json"))
    by (vm_compute; intuition discriminate).
  split; [exact Hext|].
  exact (getChunkPath_keeps_extension (lit "specs/api.v2") (lit "json") 3
           Hext).
Defined.

(** X2: a path without any point is taken as its own extension: its chunk
    path is ".part<index>." followed by the whole path. *)
Theorem getChunkPath_without_extension (originalPath : JsString)
    (index : Z) :
  ~ In 46%N originalPath ->
  FileManager.getChunkPath originalPath index
  = lit ".part" ++ number_to_string index ++ lit "." ++ originalPath.
Proof.
  intros Hnone. unfold FileManager.getChunkPath.
  rewrite (split_on_absent 46%N originalPath Hnone). reflexivity.
Qed.

Lemma getChunkPath_without_extension_witness :
  ~ In 46%N (lit "Makefile")
  /\ FileManager.getChunkPath (lit "Makefile") 0 = lit ".part0.Makefile".
Proof.
  assert (Hnone : ~ In 46%N (lit "Makefile"))
    by (vm_compute; intuition discriminate).
  split; [exact Hnone|].
  exact (getChunkPath_without_extension (lit "Makefile") 0 Hnone).
Defined.

Lemma getChunkPath_index_inj (originalPath : JsString) (i j : Z) :
  FileManager.getChunkPath originalPath i
  = FileManager.getChunkPath originalPath j ->
  i = j.
Proof.
  intros Heq. unfold FileManager.getChunkPath in Heq.
  apply app_inv_head in Heq. apply app_inv_head in Heq.
  rewrite !app_assoc in Heq. apply app_inv_tail in Heq.
  apply app_inv_tail in Heq. now apply number_to_string_inj.
Qed.

(** X3: for a fixed original path, different indices give different chunk
    paths. *)
Theorem getChunkPath_distinct_indices (originalPath : JsString) (i j : Z) :
  i <> j ->
  FileManager.getChunkPath originalPath i
  <> FileManager.getChunkPath originalPath j.
Proof.
  intros Hij Heq. apply Hij. now apply getChunkPath_index_inj in Heq.
Qed.

Lemma getChunkPath_distinct_indices_witness :
  0 <> 1
  /\ FileManager.getChunkPath (lit "out.txt") 0
     <> FileManager.getChunkPath (lit "out.txt") 1.
Proof.
  assert (H01 : 0 <> 1) by discriminate.
  split; [exact H01|].
  exact (getChunkPath_distinct_indices (lit "out.txt") 0 1 H01).
Defined.

Lemma getChunkPath_length (originalPath : JsString) (index : Z) :
  (length originalPath + 5
   <= length (FileManager.getChunkPath originalPath index))%nat.
Proof.
  unfold FileManager.getChunkPath.
  destruct (path_stem_ext originalPath) as [[_ Hp]|[_ Hp]];
    rewrite Hp at 1; rewrite !length_app;
    change (length (lit ".part")) with 5%nat;
    change (length (lit ".")) with 1%nat; lia.
Qed.

(** X4: a chunk path is at least five characters longer than the original
    path, so no chunk is ever written at the original path. *)
Theorem getChunkPath_not_original (originalPath : JsString) (index : Z) :
  (length originalPath + 5
   <= length (FileManager.getChunkPath originalPath index))%nat
  /\ FileManager.getChunkPath originalPath index <> originalPath.
Proof.
  pose proof (getChunkPath_length originalPath index) as Hlen.
  split; [exact Hlen|].
  intros Heq. rewrite Heq in Hlen. lia.
Qed.

(** ** The chunk splitter, continued *)

Lemma slice_length {A} (l : list A) (a c : Z) :
  0 <= a -> 0 <= c ->
  Z.of_nat (length (slice l a (a + c)))
  = Z.max 0 (Z.min c (Z.of_nat (length l) - a)).
Proof.
  intros Ha Hc. unfold slice.
  destruct (Z.ltb_spec a 0); [lia|].
  destruct (Z.ltb_spec (a + c) 0); [lia|].
  rewrite length_take, length_drop. lia.
Qed.

(** X5: fragment i of a split into numChunks >= 1 parts has
    min(chunkSize, length - i*chunkSize) characters, or none when
    i*chunkSize is past the end: no fragment is longer than chunkSize, and
    fragments past the end of the content are empty. *)
Theorem splitContent_fragment_lengths (content : JsString) (numChunks : Z)
    (i : nat) (fragment : JsString) :
  1 <= numChunks ->
  FileManager.splitContent content numChunks !! i = Some fragment ->
  let chunkSize := ceil_div (Z.of_nat (length content)) numChunks in
  Z.of_nat (length fragment)
  = Z.max 0 (Z.min chunkSize
               (Z.of_nat (length content) - Z.of_nat i * chunkSize))
  /\ Z.of_nat (length fragment) <= chunkSize.
Proof.
  intros Hn Hi chunkSize.
  assert (Hspec := ceil_div_spec (Z.of_nat (length content)) numChunks
                     ltac:(lia)).
  fold chunkSize in Hspec.
  assert (Hcs : 0 <= chunkSize) by nia.
  rewrite splitContent_map, list_lookup_fmap in Hi. fold chunkSize in Hi.
  destruct (seq 0 (Z.to_nat numChunks) !! i) as [k|] eqn:Hk; [|discriminate].
  apply lookup_seq in Hk as [-> _]. simpl in Hi. injection Hi as <-.
  unfold fragment_at. rewrite slice_length by nia. lia.
Qed.

Lemma splitContent_fragment_lengths_witness :
  1 <= 5
  /\ FileManager.splitContent (lit "abc") 5 !! 4%nat = Some []
  /\ Z.of_nat (length (@nil N)) <= ceil_div 3 5.
Proof.
  assert (Hn : 1 <= 5) by lia.
  assert (Hi : FileManager.splitContent (lit "abc") 5 !! 4%nat = Some [])
    by reflexivity.
  split; [exact Hn|]. split; [exact Hi|].
  exact (proj2 (splitContent_fragment_lengths (lit "abc") 5 4 [] Hn Hi)).
Defined.

(** ** The analyzer, continued *)

Lemma utf8_length_bounds (s : JsString) :
  Z.of_nat (length s) <= utf8_length s <= 3 * Z.of_nat (length s).
Proof.
  induction s as [s IH] using (induction_ltof1 _ (@length N)).
  unfold ltof in IH.
  destruct s as [|c rest]; [simpl; lia|].
  pose proof (IH rest ltac:(simpl; lia)) as Hrest.
  cbn [utf8_length]. rewrite length_cons.
  destruct (c <? 128)%N; [lia|].
  destruct (c <? 2048)%N; [lia|].
  destruct (is_high_surrogate c); [|lia].
  destruct rest as [|d rest']; [simpl; lia|].
  pose proof (IH rest' ltac:(simpl; lia)) as Hrest'.
  rewrite length_cons in *.
  destruct (is_low_surrogate d); lia.
Qed.

(** X6: the size the analyzer reports lies between the number of UTF-16
    code units of the content and three times that number, whatever the
    configuration. *)
Theorem analyzeContent_size_bounds (this : FileManager.t)
    (content : JsString) :
  let size := FileManager.size (FileManager.analyzeContent this content) in
  Z.of_nat (length content) <= size <= 3 * Z.of_nat (length content).
Proof. apply utf8_length_bounds. Qed.

(** X7: under the constructor's configuration approachingLimit holds
    exactly when the size exceeds 40,000 bytes; so every content that
    requires chunking is also reported as approaching the limit. *)
Theorem analyzeContent_approachingLimit (content : JsString) :
  let a := FileManager.analyzeContent FileManager.new content in
  (FileManager.approachingLimit a = true <-> 40000 < FileManager.size a)
  /\ (FileManager.requiresChunking a = true ->
      FileManager.approachingLimit a = true).
Proof.
  intros a.
  assert (Happ : FileManager.approachingLimit a = true
                 <-> 40000 < FileManager.size a).
  { subst a. unfold FileManager.analyzeContent. cbn [FileManager.approachingLimit
      FileManager.size FileManager.new FileManager.CHUNK_SIZE
      FileManager.WARNING_THRESHOLD].
    unfold Qle_bool. simpl Qnum. simpl Qden.
    rewrite negb_true_iff, Z.leb_gt. lia. }
  split; [exact Happ|].
  intros Hreq. apply Happ. subst a. simpl in Hreq.
  rewrite Z.gtb_ltb, Z.ltb_lt in Hreq. simpl. lia.
Qed.

Lemma analyzeContent_approachingLimit_witness :
  let a := FileManager.analyzeContent FileManager.new example_content in
  FileManager.requiresChunking a = true
  /\ FileManager.approachingLimit a = true.
Proof.
  intros a.
  assert (Hreq : FileManager.requiresChunking a = true)
    by (vm_compute; reflexivity).
  split; [exact Hreq|].
  exact (proj2 (analyzeContent_approachingLimit example_content) Hreq).
Defined.

(** ** Single writes and the cache *)

(** X8: for every options argument other than [null] (left out, an
    object or a primitive) [writeSingleFile] returns the path, the number
    of characters and a clock reading; the cache then holds the content
    under the path, stamped with the clock reading taken before the one
    returned; the entries of all other paths, CHUNK_SIZE and
    WARNING_THRESHOLD are as before.  With [null] as options it throws the
    TypeError of reading [metadata] of null, after one clock reading and
    with the file manager unchanged. *)
Theorem writeSingleFile_stores_content (path content : JsString)
    (options : JsVal) (h : Host) (this : FileManager.t) :
  let r := FileManager.writeSingleFile path content options h this in
  (options <> JNull ->
   r.1.1 = Ok (write_result path (Z.of_nat (length content))
                 (Date_now h (S (now_reads h))))
   /\ (exists md,
         FileManager.fileCache r.2 !! path
         = Some (FileManager.mkCacheEntry content
                   (Date_now h (now_reads h)) md))
   /\ (FileManager.isCached path r.1.2 r.2).1.1 = Ok true
   /\ (forall other, other <> path ->
         FileManager.fileCache r.2 !! other
         = FileManager.fileCache this !! other)
   /\ FileManager.CHUNK_SIZE r.2 = FileManager.CHUNK_SIZE this
   /\ FileManager.WARNING_THRESHOLD r.2 = FileManager.WARNING_THRESHOLD this
   /\ now_reads r.1.2 = S (S (now_reads h)))
  /\ (options = JNull ->
      r = (Throw (type_error
                    "Cannot read properties of null (reading 'metadata')"),
           clock_read h, this)).
Proof.
  intros r. subst r. split; [|intros ->; reflexivity].
  intros Hnotnull.
  unfold FileManager.writeSingleFile, bind, now, of_outcome, modify, ret.
  set (opts := match options with JUndefined => JObj [] | o => o end).
  assert (Hmd : exists md, get_prop opts "metadata" = Ok md).
  { subst opts. destruct options; simpl; eauto. contradiction. }
  destruct Hmd as [md ->]. cbn [fst snd].
  split; [reflexivity|].
  split; [eexists; apply lookup_insert_eq|].
  split.
  { unfold FileManager.isCached, bind, get_state, ret. cbn [fst snd].
    f_equal. apply bool_decide_eq_true_2.
    unfold FileManager.set_fileCache. cbn [FileManager.fileCache].
    rewrite lookup_insert_eq. eauto. }
  split; [|repeat split].
  intros other Hother. unfold FileManager.set_fileCache.
  cbn [FileManager.fileCache]. now apply lookup_insert_ne.
Qed.

Lemma writeSingleFile_stores_content_witness :
  let before := example_cache 1699999999000 in
  let r := FileManager.writeSingleFile (lit "a.txt") (lit "hello")
             (JNum 7) example_host before in
  JNum 7 <> JNull
  /\ lit "out.txt" <> lit "a.txt"
  /\ FileManager.fileCache r.2 !! lit "out.txt"
     = FileManager.fileCache before !! lit "out.txt"
  /\ FileManager.writeSingleFile (lit "a.txt") (lit "hello") JNull
       example_host before
     = (Throw (type_error
                 "Cannot read properties of null (reading 'metadata')"),
        clock_read example_host, before).
Proof.
  intros before r.
  assert (Hnotnull : JNum 7 <> JNull) by discriminate.
  assert (Hne : lit "out.txt" <> lit "a.txt") by discriminate.
  split; [exact Hnotnull|]. split; [exact Hne|].
  split.
  - exact (proj1 (proj2 (proj2 (proj2
             (proj1 (writeSingleFile_stores_content (lit "a.txt")
                       (lit "hello") (JNum 7) example_host before)
                    Hnotnull))))
             (lit "out.txt") Hne).
  - exact (proj2 (writeSingleFile_stores_content (lit "a.txt") (lit "hello")
                    JNull example_host before) eq_refl).
Defined.


(** ** Chunked writes of the file manager *)

Lemma write_chunked_loop_step (path chunk : JsString)
    (rest : list JsString) (i total : Z) (results : list JsVal) (h : Host)
    (this : FileManager.t) :
  FileManager.write_chunked_loop path (chunk :: rest) i total results h this
  = FileManager.write_chunked_loop path rest (i + 1) total
      (results
       ++ [write_result (FileManager.getChunkPath path i)
             (Z.of_nat (length chunk)) (Date_now h (S (now_reads h)))])
      (clock_read (clock_read (clock_read h)))
      (FileManager.set_fileCache
         (<[FileManager.getChunkPath path i :=
              FileManager.mkCacheEntry chunk
                (Date_now h (S (S (now_reads h))))
                (JObj [("part", JNum i); ("total", JNum total)])]>
            (<[FileManager.getChunkPath path i :=
                 FileManager.mkCacheEntry chunk (Date_now h (now_reads h))
                   (JObj [])]>
               (FileManager.fileCache this)))
         this).
Proof. reflexivity. Qed.

Lemma write_chunked_loop_spec (path : JsString) (total : Z)
    (remaining : list JsString) : forall i results h this,
  let r := FileManager.write_chunked_loop path remaining i total results
             h this in
  (exists new, r.1.1 = Ok (results ++ new)
               /\ length new = length remaining)
  /\ (forall (k : nat) chunk,
        remaining !! k = Some chunk ->
        exists written_at,
          FileManager.fileCache r.2
            !! FileManager.getChunkPath path (i + Z.of_nat k)
          = Some (FileManager.mkCacheEntry chunk written_at
                    (JObj [("part", JNum (i + Z.of_nat k));
                           ("total", JNum total)])))
  /\ (forall other,
        (forall k : nat, (k < length remaining)%nat ->
           other <> FileManager.getChunkPath path (i + Z.of_nat k)) ->
        FileManager.fileCache r.2 !! other
        = FileManager.fileCache this !! other).
Proof.
  induction remaining as [|chunk rest IH]; intros i results h this r.
  - subst r. simpl. split; [exists []; now rewrite app_nil_r|].
    split; [intros k c Hk; discriminate | reflexivity].
  - subst r. rewrite write_chunked_loop_step.
    match goal with
    | |- context [FileManager.write_chunked_loop _ _ _ _ ?rs ?h' ?t'] =>
        specialize (IH (i + 1) rs h' t'); cbv zeta in IH;
        set (r := FileManager.write_chunked_loop path rest (i + 1) total
                    rs h' t') in *
    end.
    destruct IH as ((new & Hres & Hlen) & Hchunks & Hothers).
    split; [|split].
    + eexists (_ :: new). rewrite Hres, <- app_assoc. simpl.
      split; [reflexivity | now rewrite Hlen].
    + intros [|k] c Hk.
      * simpl in Hk. injection Hk as <-.
        rewrite Z.add_0_r. eexists.
        rewrite Hothers.
        { unfold FileManager.set_fileCache. cbn [FileManager.fileCache].
          apply lookup_insert_eq. }
        intros k _ Heq. apply getChunkPath_index_inj in Heq. lia.
      * simpl in Hk. destruct (Hchunks k c Hk) as [t Ht]. exists t.
        replace (i + Z.of_nat (S k)) with (i + 1 + Z.of_nat k) by lia.
        exact Ht.
    + intros other Hother. rewrite Hothers.
      * unfold FileManager.set_fileCache. cbn [FileManager.fileCache].
        assert (Hne : FileManager.getChunkPath path i <> other).
        { intros Heq. apply (Hother 0%nat); [simpl; lia|].
          now rewrite Z.add_0_r. }
        now rewrite !lookup_insert_ne by exact Hne.
      * intros k Hk.
        replace (i + 1 + Z.of_nat k) with (i + Z.of_nat (S k)) by lia.
        apply Hother. simpl. lia.
Qed.

(** X10: when the content is larger than CHUNK_SIZE (> 0), [writeFile]
    returns normally with one result per fragment of the split into
    ceil(size / CHUNK_SIZE) parts; afterwards the cache holds fragment i
    under chunk path i with metadata {part: i, total}; every path that is
    not one of these chunk paths, the original path among them, has the
    entry it had before. *)
Theorem writeFile_stores_every_chunk (path content : JsString)
    (options : JsVal) (h : Host) (this : FileManager.t) :
  0 < FileManager.CHUNK_SIZE this ->
  FileManager.CHUNK_SIZE this < utf8_length content ->
  let total := ceil_div (utf8_length content) (FileManager.CHUNK_SIZE this) in
  let fragments := FileManager.splitContent content total in
  let r := FileManager.writeFile path content options h this in
  (exists results, r.1.1 = Ok (inl results)
                   /\ Z.of_nat (length results) = total)
  /\ (forall (i : nat) fragment,
        fragments !! i = Some fragment ->
        exists written_at,
          FileManager.fileCache r.2
            !! FileManager.getChunkPath path (Z.of_nat i)
          = Some (FileManager.mkCacheEntry fragment written_at
                    (JObj [("part", JNum (Z.of_nat i));
                           ("total", JNum total)])))
  /\ (forall other,
        (forall i : nat, Z.of_nat i < total ->
           other <> FileManager.getChunkPath path (Z.of_nat i)) ->
        FileManager.fileCache r.2 !! other
        = FileManager.fileCache this !! other)
  /\ FileManager.fileCache r.2 !! path = FileManager.fileCache this !! path.
Proof.
  intros Hpos Hbig total fragments r.
  assert (Htotal : 1 <= total).
  { pose proof (ceil_div_spec (utf8_length content)
                  (FileManager.CHUNK_SIZE this) Hpos) as Hc.
    fold total in Hc. nia. }
  assert (Hlen : Z.of_nat (length fragments) = total).
  { subst fragments. rewrite splitContent_map, length_map, length_seq. lia. }
  assert (Hr : r = let l := FileManager.write_chunked_loop path fragments 0
                              total [] h this in
                   (match l.1.1 with
                    | Ok results => Ok (inl results)
                    | Throw e => Throw e
                    end, l.1.2, l.2)).
  { subst r. unfold FileManager.writeFile, bind, get_state.
    cbn [FileManager.analyzeContent FileManager.requiresChunking].
    replace (utf8_length content >? FileManager.CHUNK_SIZE this) with true
      by (symmetry; rewrite Z.gtb_ltb; now apply Z.ltb_lt).
    unfold FileManager.writeChunkedFile.
    change (FileManager.chunks (FileManager.analyzeContent this content))
      with total.
    fold fragments. rewrite Hlen.
    destruct (FileManager.write_chunked_loop path fragments 0 total [] h this)
      as [[[results|e] h'] this']; reflexivity. }
  destruct (write_chunked_loop_spec path total fragments 0 [] h this)
    as ((new & Hres & Hnew) & Hchunks & Hothers).
  assert (Hcache : FileManager.fileCache r.2
                   = FileManager.fileCache
                       (FileManager.write_chunked_loop path fragments 0
                          total [] h this).2)
    by (rewrite Hr; reflexivity).
  assert (Hother : forall other,
    (forall i : nat, Z.of_nat i < total ->
       other <> FileManager.getChunkPath path (Z.of_nat i)) ->
    FileManager.fileCache r.2 !! other
    = FileManager.fileCache this !! other).
  { intros other Hne. rewrite Hcache. apply Hothers.
    intros k Hk. rewrite Z.add_0_l. apply Hne. lia. }
  split; [|split; [|split]].
  - exists new. rewrite Hr. cbv zeta. cbn [fst snd]. rewrite Hres.
    split; [reflexivity | lia].
  - intros i fragment Hi. rewrite Hcache.
    destruct (Hchunks i fragment Hi) as [t Ht]. exists t.
    now rewrite Z.add_0_l in Ht.
  - exact Hother.
  - apply Hother. intros i _ Heq.
    pose proof (getChunkPath_length path (Z.of_nat i)) as Hl.
    rewrite <- Heq in Hl. lia.
Qed.

Lemma writeFile_stores_every_chunk_witness :
  let r := FileManager.writeFile (lit "out.txt") example_content JUndefined
             example_host FileManager.new in
  0 < FileManager.CHUNK_SIZE FileManager.new
  /\ FileManager.CHUNK_SIZE FileManager.new < utf8_length example_content
  /\ FileManager.fileCache r.2 !! lit "out.txt"
     = FileManager.fileCache FileManager.new !! lit "out.txt".
Proof.
  intros r.
  assert (Hpos : 0 < FileManager.CHUNK_SIZE FileManager.new) by reflexivity.
  assert (Hbig : FileManager.CHUNK_SIZE FileManager.new
                 < utf8_length example_content)
    by (vm_compute; reflexivity).
  split; [exact Hpos|]. split; [exact Hbig|].
  exact (proj2 (proj2 (proj2
           (writeFile_stores_every_chunk (lit "out.txt") example_content
              JUndefined example_host FileManager.new Hpos Hbig)))).
Defined.


(** * Further properties of the retry executor *)

(** The loop passes over [k] attempts that fail with retryable errors,
    when more attempts are left: it gets to attempt [attempt + k] with the
    delay doubled [k] times, having invoked the operation, slept and
    warned [k] times and not read the clock. *)
Lemma retry_loop_skips_failures (this : ErrorHandler.t)
    (operation : nat -> Outcome JsVal) (supplied : list (string * JsVal))
    (k : nat) : forall (m : nat) attempt delay h eff,
  attempt + Z.of_nat k + Z.of_nat m = ErrorHandler.maxRetries this ->
  (forall j : nat, (j < k)%nat ->
     exists e, operation (ErrorHandler.invocations eff + j)%nat = Throw e
               /\ ErrorHandler.isRetryable e = true) ->
  exists eff',
    ErrorHandler.retry_loop this operation supplied (k + S m) attempt delay
      h eff
    = ErrorHandler.retry_loop this operation supplied (S m)
        (attempt + Z.of_nat k)
        (backoff (ErrorHandler.maxDelay this) delay k) h eff'
    /\ ErrorHandler.invocations eff'
       = (ErrorHandler.invocations eff + k)%nat
    /\ ErrorHandler.sleeps eff'
       = ErrorHandler.sleeps eff
         ++ map (backoff (ErrorHandler.maxDelay this) delay) (seq 0 k)
    /\ length (ErrorHandler.warnings eff')
       = (length (ErrorHandler.warnings eff) + k)%nat.
Proof.
  induction k as [|k IH]; intros m attempt delay h eff Hsync Hfail.
  - exists eff. simpl. rewrite Z.add_0_r, Nat.add_0_r, app_nil_r.
    repeat split; lia.
  - destruct (Hfail 0%nat ltac:(lia)) as (e & He & Hre).
    rewrite Nat.add_0_r in He.
    change (S k + S m)%nat with (S (k + S m)).
    rewrite retry_loop_step, He, Hre. cbn [negb].
    replace (attempt =? ErrorHandler.maxRetries this) with false
      by (symmetry; apply Z.eqb_neq; lia).
    match goal with
    | |- context [ErrorHandler.retry_loop _ _ _ (k + S m) ?a ?d ?h' ?e'] =>
        destruct (IH m a d h' e') as (eff' & Hrun & Hinv & Hsl & Hw)
    end.
    + lia.
    + intros j Hj. destruct (Hfail (S j) ltac:(lia)) as (e' & He' & Hre').
      exists e'. split; [|exact Hre'].
      rewrite <- He'. f_equal. simpl. lia.
    + exists eff'. rewrite Hrun.
      split; [f_equal; lia|].
      split; [rewrite Hinv; simpl; lia|].
      split.
      * rewrite Hsl. simpl ErrorHandler.sleeps. rewrite <- app_assoc.
        f_equal. simpl. f_equal. now rewrite <- seq_shift, map_map.
      * rewrite Hw. simpl ErrorHandler.warnings. rewrite length_app.
        simpl. lia.
Qed.

Lemma enhance_and_throw (error : JsError) (supplied : list (string * JsVal))
    (h : Host) (eff : ErrorHandler.Effects) :
  bind (ErrorHandler.enhanceError error supplied) (@throw _ JsVal) h eff
  = (Throw (enhanced error supplied (Date_now h (now_reads h))),
     clock_read h, eff).
Proof. reflexivity. Qed.

(** X11: when the first k attempts fail with retryable errors and attempt
    k+1 <= maxRetries succeeds, [withRetry] returns that attempt's value at
    once: the operation has been invoked k+1 times, k waits have been
    slept and k warnings printed, and the clock has not been read. *)
Theorem withRetry_returns_first_success (this : ErrorHandler.t)
    (operation : nat -> Outcome JsVal) (supplied : list (string * JsVal))
    (h : Host) (k : nat) (v : JsVal) :
  Z.of_nat k < ErrorHandler.maxRetries this ->
  (forall j : nat, (j < k)%nat ->
     exists e, operation j = Throw e
               /\ ErrorHandler.isRetryable e = true) ->
  operation k = Ok v ->
  let r := ErrorHandler.withRetry this operation supplied h
             ErrorHandler.no_effects in
  r.1.1 = Ok v
  /\ r.1.2 = h
  /\ ErrorHandler.invocations r.2 = S k
  /\ length (ErrorHandler.sleeps r.2) = k
  /\ length (ErrorHandler.warnings r.2) = k.
Proof.
  intros Hk Hfail Hok r. subst r. unfold ErrorHandler.withRetry.
  set (m := Z.to_nat (ErrorHandler.maxRetries this - Z.of_nat k - 1)).
  replace (Z.to_nat (ErrorHandler.maxRetries this)) with (k + S m)%nat
    by lia.
  destruct (retry_loop_skips_failures this operation supplied k m 1
              (ErrorHandler.baseDelay this) h ErrorHandler.no_effects)
    as (eff' & -> & Hinv & Hsl & Hw); [lia | exact Hfail |].
  rewrite retry_loop_step, Hinv. simpl Nat.add. rewrite Hok.
  cbn [fst snd invoked ErrorHandler.invocations ErrorHandler.sleeps
       ErrorHandler.warnings].
  rewrite Hinv, Hsl, Hw. simpl. rewrite length_map, length_seq.
  repeat split.
Qed.

Lemma withRetry_returns_first_success_witness :
  let operation := fun j : nat =>
    match j with
    | O => Throw example_retryable_error
    | _ => Ok (JStr (lit "created"))
    end in
  Z.of_nat 1
  < ErrorHandler.maxRetries (ErrorHandler.new ErrorHandler.no_options)
  /\ (forall j : nat, (j < 1)%nat ->
        exists e, operation j = Throw e
                  /\ ErrorHandler.isRetryable e = true)
  /\ operation 1%nat = Ok (JStr (lit "created"))
  /\ (ErrorHandler.withRetry (ErrorHandler.new ErrorHandler.no_options)
        operation example_context example_host
        ErrorHandler.no_effects).1.1
     = Ok (JStr (lit "created")).
Proof.
  intros operation.
  assert (Hk : Z.of_nat 1
               < ErrorHandler.maxRetries
                   (ErrorHandler.new ErrorHandler.no_options))
    by (simpl; lia).
  assert (Hfail : forall j : nat, (j < 1)%nat ->
            exists e, operation j = Throw e
                      /\ ErrorHandler.isRetryable e = true).
  { intros j Hj. assert (j = 0%nat) as -> by lia.
    exists example_retryable_error. split; reflexivity. }
  split; [exact Hk|]. split; [exact Hfail|]. split; [reflexivity|].
  exact (proj1 (withRetry_returns_first_success
                  (ErrorHandler.new ErrorHandler.no_options) operation
                  example_context example_host 1 (JStr (lit "created"))
                  Hk Hfail eq_refl)).
Defined.

(** X12: when the first k attempts fail with retryable errors and attempt
    k+1 <= maxRetries throws an error that is not retryable, [withRetry]
    throws at once, after k+1 invocations and k waits.  The error thrown
    is of class [WorkerError] with the message of the error caught, the
    supplied context and the clock reading: the error caught itself when
    it is a [WorkerError], its own context overwritten, a new one
    otherwise. *)
Theorem withRetry_fails_fast_at_any_attempt (this : ErrorHandler.t)
    (operation : nat -> Outcome JsVal) (supplied : list (string * JsVal))
    (h : Host) (k : nat) (error : JsError) :
  Z.of_nat k < ErrorHandler.maxRetries this ->
  (forall j : nat, (j < k)%nat ->
     exists e, operation j = Throw e
               /\ ErrorHandler.isRetryable e = true) ->
  operation k = Throw error ->
  ErrorHandler.isRetryable error = false ->
  let r := ErrorHandler.withRetry this operation supplied h
             ErrorHandler.no_effects in
  let surfaced := enhanced error supplied (Date_now h (now_reads h)) in
  r.1.1 = Throw surfaced
  /\ cls surfaced = ClsWorkerError
  /\ message surfaced = message error
  /\ context surfaced = Some supplied
  /\ (instanceof error ClsWorkerError = true ->
      details surfaced = details error /\ status surfaced = status error
      /\ code surfaced = code error)
  /\ (instanceof error ClsWorkerError = false ->
      details surfaced = None /\ status surfaced = None
      /\ code surfaced = None)
  /\ ErrorHandler.invocations r.2 = S k
  /\ length (ErrorHandler.sleeps r.2) = k.
Proof.
  intros Hk Hfail Hthrow Hnot r surfaced. subst r surfaced.
  unfold ErrorHandler.withRetry.
  set (m := Z.to_nat (ErrorHandler.maxRetries this - Z.of_nat k - 1)).
  replace (Z.to_nat (ErrorHandler.maxRetries this)) with (k + S m)%nat
    by lia.
  destruct (retry_loop_skips_failures this operation supplied k m 1
              (ErrorHandler.baseDelay this) h ErrorHandler.no_effects)
    as (eff' & -> & Hinv & Hsl & Hw); [lia | exact Hfail |].
  rewrite retry_loop_step, Hinv. simpl Nat.add. rewrite Hthrow, Hnot.
  cbn [negb]. rewrite enhance_and_throw.
  cbn [fst snd invoked ErrorHandler.invocations ErrorHandler.sleeps].
  rewrite Hinv, Hsl. simpl app. rewrite length_map, length_seq.
  unfold enhanced.
  split; [reflexivity|].
  assert (Hcls : instanceof error ClsWorkerError = true
                 -> cls error = ClsWorkerError).
  { unfold instanceof. destruct (cls error); intros; congruence. }
  destruct (instanceof error ClsWorkerError) eqn:Hw'; simpl;
    repeat split; try reflexivity; try discriminate; auto.
Qed.

Lemma withRetry_fails_fast_at_any_attempt_witness :
  let failure := new_WorkerError (lit "worker crashed")
                   (Some [("worker", JStr (lit "w1"))]) in
  let operation := fun j : nat =>
    match j with
    | O => Throw example_retryable_error
    | _ => Throw failure
    end in
  let r := ErrorHandler.withRetry (ErrorHandler.new ErrorHandler.no_options)
             operation example_context example_host
             ErrorHandler.no_effects in
  Z.of_nat 1
  < ErrorHandler.maxRetries (ErrorHandler.new ErrorHandler.no_options)
  /\ (forall j : nat, (j < 1)%nat ->
        exists e, operation j = Throw e
                  /\ ErrorHandler.isRetryable e = true)
  /\ operation 1%nat = Throw failure
  /\ ErrorHandler.isRetryable failure = false
  /\ instanceof failure ClsWorkerError = true
  /\ ErrorHandler.invocations r.2 = 2%nat.
Proof.
  intros failure operation r.
  assert (Hk : Z.of_nat 1
               < ErrorHandler.maxRetries
                   (ErrorHandler.new ErrorHandler.no_options))
    by (simpl; lia).
  assert (Hfail : forall j : nat, (j < 1)%nat ->
            exists e, operation j = Throw e
                      /\ ErrorHandler.isRetryable e = true).
  { intros j Hj. assert (j = 0%nat) as -> by lia.
    exists example_retryable_error. split; reflexivity. }
  split; [exact Hk|]. split; [exact Hfail|]. split; [reflexivity|].
  split; [reflexivity|]. split; [reflexivity|].
  exact (proj1 (proj2 (proj2 (proj2 (proj2 (proj2 (proj2
           (withRetry_fails_fast_at_any_attempt
              (ErrorHandler.new ErrorHandler.no_options) operation
              example_context example_host 1 failure
              Hk Hfail eq_refl eq_refl)))))))).
Defined.

Lemma retry_loop_counts (this : ErrorHandler.t)
    (operation : nat -> Outcome JsVal) (supplied : list (string * JsVal))
    (rounds : nat) : forall attempt delay h eff,
  attempt + Z.of_nat rounds = ErrorHandler.maxRetries this ->
  let r := ErrorHandler.retry_loop this operation supplied (S rounds)
             attempt delay h eff in
  exists j : nat,
    (j <= rounds)%nat
    /\ ErrorHandler.invocations r.2
       = (ErrorHandler.invocations eff + S j)%nat
    /\ length (ErrorHandler.sleeps r.2)
       = (length (ErrorHandler.sleeps eff) + j)%nat
    /\ length (ErrorHandler.warnings r.2)
       = (length (ErrorHandler.warnings eff) + j)%nat.
Proof.
  induction rounds as [|rounds IH]; intros attempt delay h eff Hsync r;
    subst r; rewrite retry_loop_step;
    (destruct (operation (ErrorHandler.invocations eff)) as [v|e];
     [exists 0%nat; simpl; repeat split; lia|]);
    (destruct (negb (ErrorHandler.isRetryable e));
     [exists 0%nat; rewrite enhance_and_throw; simpl; repeat split; lia|]).
  - replace (attempt =? ErrorHandler.maxRetries this) with true
      by (symmetry; apply Z.eqb_eq; lia).
    exists 0%nat. rewrite enhance_and_throw. simpl. repeat split; lia.
  - replace (attempt =? ErrorHandler.maxRetries this) with false
      by (symmetry; apply Z.eqb_neq; lia).
    match goal with
    | |- context [ErrorHandler.retry_loop _ _ _ _ ?a ?d ?h' ?e'] =>
        destruct (IH a d h' e' ltac:(lia)) as (j & Hj & Hinv & Hsl & Hw)
    end.
    exists (S j). rewrite Hinv, Hsl, Hw.
    simpl ErrorHandler.invocations. simpl ErrorHandler.sleeps.
    simpl ErrorHandler.warnings. rewrite !length_app. simpl.
    repeat split; lia.
Qed.

(** X13: whatever the operation does, [withRetry] invokes it at least
    once and at most maxRetries times when maxRetries >= 1, sleeps once
    less than it invokes and prints one warning per wait; when maxRetries
    is zero or negative it returns undefined without invoking the
    operation at all. *)
Theorem withRetry_invocation_bound (this : ErrorHandler.t)
    (operation : nat -> Outcome JsVal) (supplied : list (string * JsVal))
    (h : Host) :
  let r := ErrorHandler.withRetry this operation supplied h
             ErrorHandler.no_effects in
  (ErrorHandler.maxRetries this <= 0 ->
   r = (Ok JUndefined, h, ErrorHandler.no_effects))
  /\ (1 <= ErrorHandler.maxRetries this ->
      1 <= Z.of_nat (ErrorHandler.invocations r.2)
        <= ErrorHandler.maxRetries this
      /\ S (length (ErrorHandler.sleeps r.2)) = ErrorHandler.invocations r.2
      /\ length (ErrorHandler.warnings r.2)
         = length (ErrorHandler.sleeps r.2)).
Proof.
  intros r. subst r. unfold ErrorHandler.withRetry. split.
  - intros Hnone.
    replace (Z.to_nat (ErrorHandler.maxRetries this)) with 0%nat by lia.
    reflexivity.
  - intros Hsome.
    destruct (Z.to_nat (ErrorHandler.maxRetries this)) as [|rounds] eqn:Hr;
      [lia|].
    destruct (retry_loop_counts this operation supplied rounds 1
                (ErrorHandler.baseDelay this) h ErrorHandler.no_effects
                ltac:(lia))
      as (j & Hj & Hinv & Hsl & Hw).
    rewrite Hinv, Hsl, Hw. simpl. lia.
Qed.

Lemma withRetry_invocation_bound_witness :
  let never := ErrorHandler.new (ErrorHandler.mkOptions (Some (-1)) None None) in
  let default := ErrorHandler.new ErrorHandler.no_options in
  ErrorHandler.maxRetries never <= 0
  /\ ErrorHandler.withRetry never (always_throws example_retryable_error)
       example_context example_host ErrorHandler.no_effects
     = (Ok JUndefined, example_host, ErrorHandler.no_effects)
  /\ 1 <= ErrorHandler.maxRetries default
  /\ 1 <= Z.of_nat
            (ErrorHandler.invocations
               (ErrorHandler.withRetry default
                  (always_throws example_validation_error) example_context
                  example_host ErrorHandler.no_effects).2)
       <= ErrorHandler.maxRetries default.
Proof.
  intros never default.
  assert (Hnever : ErrorHandler.maxRetries never <= 0) by (simpl; lia).
  assert (Hdefault : 1 <= ErrorHandler.maxRetries default) by (simpl; lia).
  split; [exact Hnever|].
  split.
  - exact (proj1 (withRetry_invocation_bound never
                    (always_throws example_retryable_error) example_context
                    example_host) Hnever).
  - split; [exact Hdefault|].
    exact (proj1 (proj2 (withRetry_invocation_bound default
                           (always_throws example_validation_error)
                           example_context example_host) Hdefault)).
Defined.

Lemma backoff_capped (maxDelay : Z) (k : nat) : forall delay,
  backoff maxDelay delay (S k) <= maxDelay.
Proof.
  induction k as [|k IH]; intros delay.
  - simpl. lia.
  - change (backoff maxDelay delay (S (S k)))
      with (backoff maxDelay (Z.min (delay * 2) maxDelay) (S k)).
    apply IH.
Qed.

(** X14: in every run the first wait is baseDelay, whatever maxDelay is,
    and every later wait is at most maxDelay; when 0 < baseDelay <=
    maxDelay the wait after the k-th failed attempt is
    min(baseDelay * 2^(k-1), maxDelay). *)
Theorem withRetry_waits_capped (this : ErrorHandler.t)
    (operation : nat -> Outcome JsVal) (supplied : list (string * JsVal))
    (h : Host) :
  let waits :=
    ErrorHandler.sleeps
      (ErrorHandler.withRetry this operation supplied h
         ErrorHandler.no_effects).2 in
  (forall d, waits !! 0%nat = Some d -> d = ErrorHandler.baseDelay this)
  /\ (forall (k : nat) d,
        waits !! S k = Some d -> d <= ErrorHandler.maxDelay this)
  /\ (0 < ErrorHandler.baseDelay this <= ErrorHandler.maxDelay this ->
      forall (k : nat) d,
        waits !! k = Some d ->
        d = Z.min (ErrorHandler.baseDelay this * 2 ^ Z.of_nat k)
                  (ErrorHandler.maxDelay this)).
Proof.
  intros waits. subst waits. unfold ErrorHandler.withRetry.
  destruct (retry_loop_waits this operation supplied
              (Z.to_nat (ErrorHandler.maxRetries this)) 1
              (ErrorHandler.baseDelay this) h ErrorHandler.no_effects)
    as (n & _ & ->).
  simpl ErrorHandler.sleeps. rewrite app_nil_l.
  assert (Hat : forall (k : nat) d,
            map (backoff (ErrorHandler.maxDelay this)
                   (ErrorHandler.baseDelay this)) (seq 0 n) !! k = Some d ->
            d = backoff (ErrorHandler.maxDelay this)
                  (ErrorHandler.baseDelay this) k).
  { intros k d Hk. rewrite list_lookup_fmap in Hk.
    destruct (seq 0 n !! k) as [j|] eqn:Hj; [|discriminate].
    apply lookup_seq in Hj as [-> _]. simpl in Hk. congruence. }
  split; [|split].
  - intros d Hd. now apply Hat in Hd.
  - intros k d Hd. apply Hat in Hd. subst d. apply backoff_capped.
  - intros Hcfg k d Hd. apply Hat in Hd. subst d.
    now apply backoff_closed_form.
Qed.

Lemma withRetry_waits_capped_witness :
  let eager := ErrorHandler.new
                 (ErrorHandler.mkOptions None (Some 20000) None) in
  let default := ErrorHandler.new ErrorHandler.no_options in
  let waits_of this :=
    ErrorHandler.sleeps
      (ErrorHandler.withRetry this (always_throws example_retryable_error)
         example_context example_host ErrorHandler.no_effects).2 in
  waits_of eager !! 0%nat = Some 20000
  /\ 20000 = ErrorHandler.baseDelay eager
  /\ waits_of eager !! 1%nat = Some 10000
  /\ 10000 <= ErrorHandler.maxDelay eager
  /\ 0 < ErrorHandler.baseDelay default <= ErrorHandler.maxDelay default
  /\ waits_of default !! 1%nat = Some 2000
  /\ 2000 = Z.min (ErrorHandler.baseDelay default * 2 ^ Z.of_nat 1)
                  (ErrorHandler.maxDelay default).
Proof.
  intros eager default waits_of.
  assert (H0 : waits_of eager !! 0%nat = Some 20000) by reflexivity.
  assert (H1 : waits_of eager !! 1%nat = Some 10000) by reflexivity.
  assert (Hcfg : 0 < ErrorHandler.baseDelay default
                 <= ErrorHandler.maxDelay default) by (simpl; lia).
  assert (H2 : waits_of default !! 1%nat = Some 2000) by reflexivity.
  pose proof (withRetry_waits_capped eager
                (always_throws example_retryable_error) example_context
                example_host) as (Hfirst & Hlater & _).
  pose proof (withRetry_waits_capped default
                (always_throws example_retryable_error) example_context
                example_host) as (_ & _ & Hclosed).
  split; [exact H0|]. split; [exact (Hfirst 20000 H0)|].
  split; [exact H1|]. split; [exact (Hlater 0%nat 10000 H1)|].
  split; [exact Hcfg|]. split; [exact H2|].
  exact (Hclosed Hcfg 1%nat 2000 H2).
Defined.

(** X15: which errors are retried.  An error is retryable exactly when it
    is a [RetryableError], or is not a [ValidationError] and has a status
    of at least 500 or the code ECONNRESET or ETIMEDOUT; a
    [ValidationError] is never retryable, whatever status or code it
    carries. *)
Theorem isRetryable_iff (error : JsError) :
  (ErrorHandler.isRetryable error = true
   <-> cls error = ClsRetryableError
       \/ (cls error <> ClsValidationError
           /\ ((exists n, status error = Some n /\ 500 <= n)
               \/ code error = Some (lit "ECONNRESET")
               \/ code error = Some (lit "ETIMEDOUT"))))
  /\ (cls error = ClsValidationError ->
      ErrorHandler.isRetryable error = false).
Proof.
  unfold ErrorHandler.isRetryable, instanceof.
  split.
  - destruct (cls error); split;
      try (intros _; left; reflexivity);
      try (intros _; reflexivity);
      try discriminate;
      try (intros [Hc|[Hc _]]; congruence).
    all: try (intros Hr; right; split; [discriminate|];
              destruct (status error) as [n|];
              [destruct (Z.leb_spec 500 n); [left; eauto|]|];
              repeat case_bool_decide; auto; discriminate).
    all: intros [Hc|[_ [(n & Hn & Hge)|[Hcode|Hcode]]]]; try discriminate;
      try (rewrite Hn; apply Z.leb_le in Hge; now rewrite Hge);
      destruct (status error) as [n|];
      try (destruct (500 <=? n); [reflexivity|]);
      repeat case_bool_decide; congruence.
  - intros ->. reflexivity.
Qed.

Lemma isRetryable_iff_witness :
  let rejected :=
    mkJsError ClsValidationError (lit "ValidationError") (lit "bad spec")
              (Some []) None None (Some 503) (Some (lit "ECONNRESET")) in
  cls rejected = ClsValidationError
  /\ ErrorHandler.isRetryable rejected = false.
Proof.
  intros rejected.
  assert (Hcls : cls rejected = ClsValidationError) by reflexivity.
  split; [exact Hcls|].
  exact (proj2 (isRetryable_iff rejected) Hcls).
Defined.


(** * Further properties of the chunk manager *)

(** ** Writing and recording one chunk *)

Lemma writeSingleFile_with_metadata (path content : JsString)
    (props : list (string * JsVal)) (h : Host) (this : FileManager.t) :
  FileManager.writeSingleFile path content
    (JObj [("metadata", JObj props)]) h this
  = (Ok (write_result path (Z.of_nat (length content))
           (Date_now h (S (now_reads h)))),
     clock_read (clock_read h),
     FileManager.set_fileCache
       (<[path := FileManager.mkCacheEntry content
                    (Date_now h (now_reads h)) (JObj props)]>
          (FileManager.fileCache this)) this).
Proof. reflexivity. Qed.

(** [writeChunk] for an operation the manager knows: the chunk is stored,
    the result recorded and counted, and reaching [total] throws. *)
Lemma writeChunk_known (path content : JsString) (index : Z)
    (operationId : JsString) (h : Host) (this : ChunkManager.t)
    (operation : ChunkManager.Operation) :
  ChunkManager.pendingChunks this !! operationId = Some operation ->
  let chunkPath := FileManager.getChunkPath path index in
  let result := write_result chunkPath (Z.of_nat (length content))
                  (Date_now h (S (now_reads h))) in
  let this' :=
    ChunkManager.mk
      (FileManager.set_fileCache
         (<[chunkPath :=
              FileManager.mkCacheEntry content (Date_now h (now_reads h))
                (JObj [("operationId", JStr operationId);
                       ("index", JNum index);
                       ("isChunk", JBool true)])]>
            (FileManager.fileCache (ChunkManager.fileManager this)))
         (ChunkManager.fileManager this))
      (<[operationId :=
           ChunkManager.mkOperation (ChunkManager.total operation)
             (ChunkManager.completed operation + 1)
             (map_set index result (ChunkManager.chunks operation))]>
         (ChunkManager.pendingChunks this)) in
  ChunkManager.writeChunk path content index operationId h this
  = (if ChunkManager.completed operation + 1
        =? ChunkManager.total operation
     then Throw (type_error "this.handleCompletedOperation is not a function")
     else Ok result,
     clock_read (clock_read h), this').
Proof.
  intros Hknown chunkPath result this'.
  unfold ChunkManager.writeChunk, bind, ChunkManager.in_fileManager,
    on_member.
  rewrite writeSingleFile_with_metadata.
  unfold ChunkManager.updateChunkProgress, bind, get_state.
  cbn [ChunkManager.pendingChunks ChunkManager.set_fileManager].
  rewrite Hknown.
  cbn [ChunkManager.total ChunkManager.completed ChunkManager.chunks
       put_state].
  destruct (ChunkManager.completed operation + 1
            =? ChunkManager.total operation); reflexivity.
Qed.

Lemma writeChunk_unknown (path content : JsString) (index : Z)
    (operationId : JsString) (h : Host) (this : ChunkManager.t) :
  ChunkManager.pendingChunks this !! operationId = None ->
  let chunkPath := FileManager.getChunkPath path index in
  ChunkManager.writeChunk path content index operationId h this
  = (Ok (write_result chunkPath (Z.of_nat (length content))
           (Date_now h (S (now_reads h)))),
     clock_read (clock_read h),
     ChunkManager.mk
       (FileManager.set_fileCache
          (<[chunkPath :=
               FileManager.mkCacheEntry content (Date_now h (now_reads h))
                 (JObj [("operationId", JStr operationId);
                        ("index", JNum index);
                        ("isChunk", JBool true)])]>
             (FileManager.fileCache (ChunkManager.fileManager this)))
          (ChunkManager.fileManager this))
       (ChunkManager.pendingChunks this)).
Proof.
  intros Hunknown chunkPath.
  unfold ChunkManager.writeChunk, bind, ChunkManager.in_fileManager,
    on_member.
  rewrite writeSingleFile_with_metadata.
  unfold ChunkManager.updateChunkProgress, bind, get_state.
  cbn [ChunkManager.pendingChunks ChunkManager.set_fileManager].
  rewrite Hunknown. reflexivity.
Qed.

(** X16: [writeChunk] for an operation that this delivery does not
    complete, or for an operation id the manager does not know, returns
    the write result; the cache holds the chunk under its chunk path with
    metadata {operationId, index, isChunk: true}; a known operation has
    the result recorded under the index and its completed count raised by
    one, an unknown id changes no record; other cache entries and other
    operations are untouched. *)
Theorem writeChunk_stores_and_records (path content : JsString) (index : Z)
    (operationId : JsString) (h : Host) (this : ChunkManager.t) :
  let chunkPath := FileManager.getChunkPath path index in
  let result := write_result chunkPath (Z.of_nat (length content))
                  (Date_now h (S (now_reads h))) in
  let cache s := FileManager.fileCache (ChunkManager.fileManager s) in
  let r := ChunkManager.writeChunk path content index operationId h this in
  (forall operation,
     ChunkManager.pendingChunks this !! operationId = Some operation ->
     ChunkManager.completed operation + 1 <> ChunkManager.total operation) ->
  r.1.1 = Ok result
  /\ cache r.2 !! chunkPath
     = Some (FileManager.mkCacheEntry content (Date_now h (now_reads h))
               (JObj [("operationId", JStr operationId);
                      ("index", JNum index);
                      ("isChunk", JBool true)]))
  /\ ChunkManager.pendingChunks r.2 !! operationId
     = (fun operation =>
          ChunkManager.mkOperation (ChunkManager.total operation)
            (ChunkManager.completed operation + 1)
            (map_set index result (ChunkManager.chunks operation)))
       <$> ChunkManager.pendingChunks this !! operationId
  /\ (forall other, other <> chunkPath ->
        cache r.2 !! other = cache this !! other)
  /\ (forall otherId, otherId <> operationId ->
        ChunkManager.pendingChunks r.2 !! otherId
        = ChunkManager.pendingChunks this !! otherId).
Proof.
  intros chunkPath result cache r Hnotlast. subst r cache.
  destruct (ChunkManager.pendingChunks this !! operationId)
    as [operation|] eqn:Hknown.
  - rewrite (writeChunk_known _ _ _ _ _ _ _ Hknown).
    specialize (Hnotlast operation eq_refl).
    replace (ChunkManager.completed operation + 1
             =? ChunkManager.total operation) with false
      by (symmetry; now apply Z.eqb_neq).
    cbn [fst snd ChunkManager.fileManager ChunkManager.pendingChunks
         FileManager.set_fileCache FileManager.fileCache].
    split; [reflexivity|].
    split; [apply lookup_insert_eq|].
    split; [apply lookup_insert_eq|].
    split; intros o Ho; now apply lookup_insert_ne.
  - rewrite (writeChunk_unknown _ _ _ _ _ _ Hknown).
    cbn [fst snd ChunkManager.fileManager ChunkManager.pendingChunks
         FileManager.set_fileCache FileManager.fileCache].
    split; [reflexivity|].
    split; [apply lookup_insert_eq|].
    split; [now rewrite Hknown|].
    split; [intros o Ho; now apply lookup_insert_ne | reflexivity].
Qed.

Lemma writeChunk_stores_and_records_witness :
  let r := ChunkManager.writeChunk (lit "out.txt") (lit "abc") 0 (lit "op")
             example_host example_pending in
  (forall operation,
     ChunkManager.pendingChunks example_pending !! lit "op" = Some operation ->
     ChunkManager.completed operation + 1 <> ChunkManager.total operation)
  /\ lit "other" <> lit "op"
  /\ ChunkManager.pendingChunks r.2 !! lit "other"
     = ChunkManager.pendingChunks example_pending !! lit "other".
Proof.
  intros r.
  assert (Hnot : forall operation,
            ChunkManager.pendingChunks example_pending !! lit "op"
            = Some operation ->
            ChunkManager.completed operation + 1
            <> ChunkManager.total operation).
  { intros operation Hop. vm_compute in Hop. injection Hop as <-.
    discriminate. }
  assert (Hne : lit "other" <> lit "op") by discriminate.
  split; [exact Hnot|]. split; [exact Hne|].
  exact (proj2 (proj2 (proj2 (proj2
           (writeChunk_stores_and_records (lit "out.txt") (lit "abc") 0
              (lit "op") example_host example_pending Hnot))))
           (lit "other") Hne).
Defined.

(** ** Whole writes *)

(** X17: for a content of at most CHUNK_SIZE bytes, the empty content
    included, [writeContentInChunks] returns the result of one write; the
    cache then holds the content itself under the original path; no
    operation is registered, no other entry touched and no operation id
    drawn. *)
Theorem writeContentInChunks_small (path content : JsString) (h : Host)
    (this : ChunkManager.t) :
  utf8_length content
  <= FileManager.CHUNK_SIZE (ChunkManager.fileManager this) ->
  let cache s := FileManager.fileCache (ChunkManager.fileManager s) in
  let r := ChunkManager.writeContentInChunks path content h this in
  r.1.1 = Ok (inr (write_result path (Z.of_nat (length content))
                     (Date_now h (S (now_reads h)))))
  /\ cache r.2 !! path
     = Some (FileManager.mkCacheEntry content (Date_now h (now_reads h))
               (JObj []))
  /\ (forall other, other <> path -> cache r.2 !! other = cache this !! other)
  /\ ChunkManager.pendingChunks r.2 = ChunkManager.pendingChunks this
  /\ random_reads r.1.2 = random_reads h.
Proof.
  intros Hsmall cache r. subst r cache.
  unfold ChunkManager.writeContentInChunks, bind, get_state.
  cbn [FileManager.analyzeContent FileManager.requiresChunking].
  replace (utf8_length content
           >? FileManager.CHUNK_SIZE (ChunkManager.fileManager this))
    with false by (symmetry; rewrite Z.gtb_ltb; apply Z.ltb_ge; lia).
  cbn [fst snd]. split; [reflexivity|].
  split; [apply lookup_insert_eq|].
  split; [intros o Ho; now apply lookup_insert_ne|].
  split; reflexivity.
Qed.

Lemma writeContentInChunks_small_witness :
  let r := ChunkManager.writeContentInChunks (lit "empty.txt") []
             example_host ChunkManager.new in
  utf8_length []
  <= FileManager.CHUNK_SIZE (ChunkManager.fileManager ChunkManager.new)
  /\ FileManager.fileCache (ChunkManager.fileManager r.2) !! lit "empty.txt"
     = Some (FileManager.mkCacheEntry [] 1700000000000 (JObj [])).
Proof.
  intros r.
  assert (Hsmall : utf8_length []
                   <= FileManager.CHUNK_SIZE
                        (ChunkManager.fileManager ChunkManager.new))
    by (simpl; lia).
  split; [exact Hsmall|].
  exact (proj1 (proj2 (writeContentInChunks_small (lit "empty.txt") []
                         example_host ChunkManager.new Hsmall))).
Defined.

Lemma write_chunks_step (path chunk : JsString) (rest : list JsString)
    (i : Z) (operationId : JsString) (results : list JsVal) (h : Host)
    (this : ChunkManager.t) :
  ChunkManager.write_chunks path (chunk :: rest) i operationId results h this
  = match ChunkManager.writeChunk path chunk i operationId h this with
    | (Ok result, h', this') =>
        ChunkManager.write_chunks path rest (i + 1) operationId
          (results ++ [result]) h' this'
    | (Throw e, h', this') => (Throw e, h', this')
    end.
Proof. reflexivity. Qed.

(** The loop of [handleChunkedWrite] over the chunks that remain of an
    operation: every chunk is stored, and recording the last one throws. *)
Lemma write_chunks_fails (path operationId : JsString)
    (remaining : list JsString) : forall i results h this operation,
  remaining <> [] ->
  ChunkManager.pendingChunks this !! operationId = Some operation ->
  ChunkManager.completed operation + Z.of_nat (length remaining)
  = ChunkManager.total operation ->
  let cache s := FileManager.fileCache (ChunkManager.fileManager s) in
  let r := ChunkManager.write_chunks path remaining i operationId results
             h this in
  r.1.1 = Throw (type_error "this.handleCompletedOperation is not a function")
  /\ (forall (k : nat) chunk,
        remaining !! k = Some chunk ->
        FileManager.content
          <$> cache r.2 !! FileManager.getChunkPath path (i + Z.of_nat k)
        = Some chunk)
  /\ (forall other,
        (forall k : nat, (k < length remaining)%nat ->
           other <> FileManager.getChunkPath path (i + Z.of_nat k)) ->
        cache r.2 !! other = cache this !! other)
  /\ (exists operation',
        ChunkManager.pendingChunks r.2 !! operationId = Some operation'
        /\ ChunkManager.total operation' = ChunkManager.total operation
        /\ ChunkManager.completed operation' = ChunkManager.total operation)
  /\ random_reads r.1.2 = random_reads h.
Proof.
  induction remaining as [|chunk rest IH];
    intros i results h this operation Hne Hknown Hcount cache r;
    [contradiction|].
  subst r. rewrite write_chunks_step.
  rewrite (writeChunk_known _ _ _ _ _ _ _ Hknown).
  destruct rest as [|next rest].
  - replace (ChunkManager.completed operation + 1
             =? ChunkManager.total operation) with true
      by (symmetry; apply Z.eqb_eq; simpl in Hcount; lia).
    subst cache.
    cbn [fst snd ChunkManager.fileManager ChunkManager.pendingChunks
         FileManager.set_fileCache FileManager.fileCache].
    split; [reflexivity|].
    split; [|split; [|split]].
    + intros [|k] c Hk; [|discriminate]. injection Hk as <-.
      now rewrite Z.add_0_r, lookup_insert_eq.
    + intros other Hother. apply lookup_insert_ne.
      intros Heq. apply (Hother 0%nat); [simpl; lia|].
      now rewrite Z.add_0_r.
    + eexists. rewrite lookup_insert_eq. split; [reflexivity|].
      simpl. simpl in Hcount. split; lia.
    + reflexivity.
  - replace (ChunkManager.completed operation + 1
             =? ChunkManager.total operation) with false
      by (symmetry; apply Z.eqb_neq; simpl in Hcount; lia).
    match goal with
    | |- context [ChunkManager.write_chunks _ _ _ _ ?rs ?h' ?t'] =>
        specialize (IH (i + 1) rs h' t'
                      (ChunkManager.mkOperation
                         (ChunkManager.total operation)
                         (ChunkManager.completed operation + 1)
                         (map_set i
                            (write_result (FileManager.getChunkPath path i)
                               (Z.of_nat (length chunk))
                               (Date_now h (S (now_reads h))))
                            (ChunkManager.chunks operation)))
                      ltac:(discriminate));
        cbv zeta in IH;
        set (r := ChunkManager.write_chunks path (next :: rest) (i + 1)
                    operationId rs h' t') in *
    end.
    destruct IH as (Hthrow & Hchunks & Hothers & Hop & Hrand).
    { cbn [ChunkManager.pendingChunks]. apply lookup_insert_eq. }
    { cbn [ChunkManager.total ChunkManager.completed].
      change (length (chunk :: next :: rest))
        with (S (length (next :: rest))) in Hcount. lia. }
    subst cache. cbv beta in *.
    split; [exact Hthrow|].
    split; [|split; [|split]].
    + intros [|k] c Hk.
      * simpl in Hk. injection Hk as <-. rewrite Z.add_0_r.
        rewrite Hothers.
        { cbn [ChunkManager.fileManager FileManager.set_fileCache
               FileManager.fileCache].
          now rewrite lookup_insert_eq. }
        intros k _ Heq. apply getChunkPath_index_inj in Heq. lia.
      * replace (i + Z.of_nat (S k)) with (i + 1 + Z.of_nat k) by lia.
        now apply Hchunks.
    + intros other Hother. rewrite Hothers.
      * cbn [ChunkManager.fileManager FileManager.set_fileCache
             FileManager.fileCache].
        apply lookup_insert_ne. intros Heq.
        apply (Hother 0%nat); [simpl; lia|]. now rewrite Z.add_0_r.
      * intros k Hk.
        replace (i + 1 + Z.of_nat k) with (i + Z.of_nat (S k)) by lia.
        apply Hother. simpl in *. lia.
    + exact Hop.
    + exact Hrand.
Qed.

Lemma handleChunkedWrite_run (path content : JsString)
    (analysis : FileManager.Analysis) (h : Host) (this : ChunkManager.t) :
  ChunkManager.handleChunkedWrite path content analysis h this
  = let operationId :=
      lit "chunk_" ++ number_to_string (Date_now h (now_reads h))
        ++ lit "_" ++ random_suffix h (random_reads h) in
    let chunks :=
      FileManager.splitContent content (FileManager.chunks analysis) in
    match ChunkManager.write_chunks path chunks 0 operationId []
            (random_read (clock_read h))
            (ChunkManager.set_pendingChunks
               (<[operationId :=
                    ChunkManager.mkOperation (Z.of_nat (length chunks)) 0 []]>
                  (ChunkManager.pendingChunks this)) this)
    with
    | (Ok results, h', this') =>
        match ChunkManager.finalizeChunkedOperation operationId path h' this'
        with
        | (Ok _, h'', this'') => (Ok results, h'', this'')
        | (Throw e, h'', this'') => (Throw e, h'', this'')
        end
    | (Throw e, h', this') => (Throw e, h', this')
    end.
Proof. reflexivity. Qed.

(** X18: for every content larger than CHUNK_SIZE (> 0),
    [writeContentInChunks] fails: it registers an operation under a fresh
    id built from the clock and the random source, stores each fragment of
    the split under its chunk path, and throws the TypeError of the
    missing [handleCompletedOperation] when the last chunk is recorded.
    Finalize is not reached: the original path keeps the entry it had, and
    the operation stays registered with completed equal to total. *)
Theorem writeContentInChunks_oversized_fails (path content : JsString)
    (h : Host) (this : ChunkManager.t) :
  0 < FileManager.CHUNK_SIZE (ChunkManager.fileManager this) ->
  FileManager.CHUNK_SIZE (ChunkManager.fileManager this)
  < utf8_length content ->
  let total :=
    ceil_div (utf8_length content)
      (FileManager.CHUNK_SIZE (ChunkManager.fileManager this)) in
  let operationId :=
    lit "chunk_" ++ number_to_string (Date_now h (now_reads h))
      ++ lit "_" ++ random_suffix h (random_reads h) in
  let cache s := FileManager.fileCache (ChunkManager.fileManager s) in
  let r := ChunkManager.writeContentInChunks path content h this in
  r.1.1 = Throw (type_error "this.handleCompletedOperation is not a function")
  /\ (forall (i : nat) fragment,
        FileManager.splitContent content total !! i = Some fragment ->
        FileManager.content
          <$> cache r.2 !! FileManager.getChunkPath path (Z.of_nat i)
        = Some fragment)
  /\ cache r.2 !! path = cache this !! path
  /\ (ChunkManager.total <$> ChunkManager.pendingChunks r.2 !! operationId,
      ChunkManager.completed <$> ChunkManager.pendingChunks r.2 !! operationId)
     = (Some total, Some total).
Proof.
  intros Hpos Hbig total operationId cache r.
  set (fragments := FileManager.splitContent content total).
  assert (Htotal : 1 <= total).
  { pose proof (ceil_div_spec (utf8_length content) _ Hpos) as Hc.
    fold total in Hc. nia. }
  assert (Hlen : Z.of_nat (length fragments) = total).
  { subst fragments. rewrite splitContent_map, length_map, length_seq. lia. }
  assert (Hne : fragments <> []).
  { intros Hnil. rewrite Hnil in Hlen. simpl in Hlen. lia. }
  set (this1 :=
         ChunkManager.set_pendingChunks
           (<[operationId := ChunkManager.mkOperation total 0 []]>
              (ChunkManager.pendingChunks this)) this).
  set (h1 := random_read (clock_read h)).
  destruct (write_chunks_fails path operationId fragments 0 [] h1 this1
              (ChunkManager.mkOperation total 0 []) Hne)
    as (Hthrow & Hchunks & Hothers & (op' & Hop' & Htot & Hdone) & _).
  { subst this1. cbn [ChunkManager.pendingChunks
                      ChunkManager.set_pendingChunks].
    apply lookup_insert_eq. }
  { simpl. lia. }
  assert (Hr : r = let l := ChunkManager.write_chunks path fragments 0
                              operationId [] h1 this1 in
                   (Throw (type_error
                             "this.handleCompletedOperation is not a function"),
                    l.1.2, l.2)).
  { subst r. unfold ChunkManager.writeContentInChunks, bind, get_state.
    cbn [FileManager.analyzeContent FileManager.requiresChunking].
    replace (utf8_length content
             >? FileManager.CHUNK_SIZE (ChunkManager.fileManager this))
      with true by (symmetry; rewrite Z.gtb_ltb; now apply Z.ltb_lt).
    rewrite handleChunkedWrite_run. cbv zeta.
    change (FileManager.chunks _) with total.
    fold fragments. rewrite Hlen. fold operationId. fold h1. fold this1.
    destruct (ChunkManager.write_chunks path fragments 0 operationId []
                h1 this1) as [[o h'] s'].
    cbn [fst snd] in Hthrow. subst o. reflexivity. }
  rewrite Hr. cbv zeta. cbn [fst snd].
  split; [reflexivity|].
  split; [|split].
  - intros i fragment Hi. specialize (Hchunks i fragment Hi).
    now rewrite Z.add_0_l in Hchunks.
  - subst cache. cbv beta. cbv beta in Hothers. rewrite Hothers.
    + reflexivity.
    + intros k _ Heq.
      pose proof (getChunkPath_length path (0 + Z.of_nat k)) as Hl.
      rewrite <- Heq in Hl. lia.
  - rewrite Hop'. simpl. now rewrite Htot, Hdone.
Qed.

Lemma writeContentInChunks_oversized_fails_witness :
  0 < FileManager.CHUNK_SIZE (ChunkManager.fileManager ChunkManager.new)
  /\ FileManager.CHUNK_SIZE (ChunkManager.fileManager ChunkManager.new)
     < utf8_length example_content
  /\ (ChunkManager.writeContentInChunks (lit "out.txt") example_content
        example_host ChunkManager.new).1.1
     = Throw (type_error "this.handleCompletedOperation is not a function").
Proof.
  assert (Hpos : 0 < FileManager.CHUNK_SIZE
                       (ChunkManager.fileManager ChunkManager.new))
    by reflexivity.
  assert (Hbig : FileManager.CHUNK_SIZE
                   (ChunkManager.fileManager ChunkManager.new)
                 < utf8_length example_content)
    by (vm_compute; reflexivity).
  split; [exact Hpos|]. split; [exact Hbig|].
  exact (proj1 (writeContentInChunks_oversized_fails (lit "out.txt")
                  example_content example_host ChunkManager.new Hpos Hbig)).
Defined.

(** ** Finalize and cleanup, in general *)

Lemma finalize_merged (operationId originalPath : JsString) (h : Host)
    (this : ChunkManager.t) (operation : ChunkManager.Operation)
    (merged : JsString) (sorted : list JsVal) :
  ChunkManager.pendingChunks this !! operationId = Some operation ->
  ChunkManager.concatenateChunks (map snd (ChunkManager.chunks operation))
    h this = (Ok (merged, sorted), h, this) ->
  ChunkManager.finalizeChunkedOperation operationId originalPath h this
  = (Ok (JStr merged), clock_read (clock_read h),
     ChunkManager.mk
       (FileManager.set_fileCache
          (<[originalPath :=
               FileManager.mkCacheEntry merged (Date_now h (now_reads h))
                 (JObj [("operationId", JStr operationId);
                        ("isComplete", JBool true);
                        ("totalChunks",
                         JNum (ChunkManager.total operation))])]>
             (FileManager.fileCache (ChunkManager.fileManager this)))
          (ChunkManager.fileManager this))
       (delete operationId (ChunkManager.pendingChunks this))).
Proof.
  intros Hknown Hmerge.
  unfold ChunkManager.finalizeChunkedOperation, bind, get_state.
  rewrite Hknown, Hmerge.
  unfold ChunkManager.in_fileManager, on_member.
  rewrite writeSingleFile_with_metadata. reflexivity.
Qed.

(** X19: finalize of an operation that has two or more write results
    recorded throws the TypeError of reading [index] of an undefined
    [metadata], and leaves the manager as it was: nothing is written at
    the original path and the operation stays registered. *)
Theorem finalize_throws_on_write_results (operationId originalPath : JsString)
    (h : Host) (this : ChunkManager.t) (operation : ChunkManager.Operation)
    (i j : Z) (p1 p2 : JsString) (s1 s2 t1 t2 : Z)
    (rest : list (Z * JsVal)) :
  ChunkManager.pendingChunks this !! operationId = Some operation ->
  ChunkManager.chunks operation
  = (i, write_result p1 s1 t1) :: (j, write_result p2 s2 t2) :: rest ->
  ChunkManager.finalizeChunkedOperation operationId originalPath h this
  = (Throw (type_error
              "Cannot read properties of undefined (reading 'index')"),
     h, this).
Proof.
  intros Hknown Hchunks.
  pose proof (finalize_known operationId originalPath h this operation
                Hknown) as Hfin.
  destruct (concatenateChunks_pure
              (map snd (ChunkManager.chunks operation)) h this) as [o Ho].
  rewrite Ho in Hfin.
  pose proof (concatenateChunks_throws_on_results
                (write_result p1 s1 t1) (write_result p2 s2 t2)
                (map snd rest) h this eq_refl eq_refl eq_refl) as Hthrow.
  rewrite Hchunks in Ho. simpl map in Ho. rewrite Ho in Hthrow.
  simpl in Hthrow. subst o. exact Hfin.
Qed.

Lemma finalize_throws_on_write_results_witness :
  let operation :=
    ChunkManager.mkOperation 3 2
      [(0, write_result (lit "out.part0.txt") 3 1700000000001);
       (1, write_result (lit "out.part1.txt") 3 1700000000003)] in
  let this :=
    ChunkManager.mk FileManager.new {[ lit "op" := operation ]} in
  ChunkManager.pendingChunks this !! lit "op" = Some operation
  /\ ChunkManager.finalizeChunkedOperation (lit "op") (lit "out.txt")
       example_host this
     = (Throw (type_error
                 "Cannot read properties of undefined (reading 'index')"),
        example_host, this).
Proof.
  intros operation this.
  assert (Hknown : ChunkManager.pendingChunks this !! lit "op"
                   = Some operation) by (vm_compute; reflexivity).
  split; [exact Hknown|].
  exact (finalize_throws_on_write_results (lit "op") (lit "out.txt")
           example_host this operation 0 1 (lit "out.part0.txt")
           (lit "out.part1.txt") 3 3 1700000000001 1700000000003 []
           Hknown eq_refl).
Defined.

(** X20: finalize of an operation with no result recorded, or with a
    single write result, returns the empty string and stores the empty
    string at the original path, with metadata {operationId, isComplete:
    true, totalChunks: total}, and discards the operation: the content of
    the one chunk does not reach the merged entry. *)
Theorem finalize_of_one_result_is_empty (operationId originalPath : JsString)
    (h : Host) (this : ChunkManager.t) (operation : ChunkManager.Operation) :
  ChunkManager.pendingChunks this !! operationId = Some operation ->
  (ChunkManager.chunks operation = []
   \/ exists i p s t,
        ChunkManager.chunks operation = [(i, write_result p s t)]) ->
  let r := ChunkManager.finalizeChunkedOperation operationId originalPath
             h this in
  r.1.1 = Ok (JStr [])
  /\ FileManager.fileCache (ChunkManager.fileManager r.2) !! originalPath
     = Some (FileManager.mkCacheEntry [] (Date_now h (now_reads h))
               (JObj [("operationId", JStr operationId);
                      ("isComplete", JBool true);
                      ("totalChunks",
                       JNum (ChunkManager.total operation))]))
  /\ ChunkManager.pendingChunks r.2
     = delete operationId (ChunkManager.pendingChunks this).
Proof.
  intros Hknown Hfew r. subst r.
  assert (Hmerge : exists sorted,
            ChunkManager.concatenateChunks
              (map snd (ChunkManager.chunks operation)) h this
            = (Ok ([], sorted), h, this)).
  { destruct Hfew as [->|(i & p & s & t & ->)]; eexists; reflexivity. }
  destruct Hmerge as [sorted Hmerge].
  rewrite (finalize_merged operationId originalPath h this operation []
             sorted Hknown Hmerge).
  cbn [fst snd ChunkManager.fileManager ChunkManager.pendingChunks
       FileManager.set_fileCache FileManager.fileCache].
  split; [reflexivity|]. split; [apply lookup_insert_eq | reflexivity].
Qed.

Lemma finalize_of_one_result_is_empty_witness :
  let operation :=
    ChunkManager.mkOperation 3 1
      [(0, example_result "out.part0.txt" 40000)] in
  ChunkManager.pendingChunks example_one_written !! lit "op" = Some operation
  /\ (ChunkManager.chunks operation = []
      \/ exists i p s t,
           ChunkManager.chunks operation = [(i, write_result p s t)])
  /\ (ChunkManager.finalizeChunkedOperation (lit "op") (lit "out.txt")
        example_host example_one_written).1.1
     = Ok (JStr []).
Proof.
  intros operation.
  assert (Hknown : ChunkManager.pendingChunks example_one_written !! lit "op"
                   = Some operation) by (vm_compute; reflexivity).
  assert (Hfew : ChunkManager.chunks operation = []
                 \/ exists i p s t,
                      ChunkManager.chunks operation
                      = [(i, write_result p s t)]).
  { right. exists 0, (lit "out.part0.txt"), 40000, 1700000000001.
    reflexivity. }
  split; [exact Hknown|]. split; [exact Hfew|].
  exact (proj1 (finalize_of_one_result_is_empty (lit "op") (lit "out.txt")
                  example_host example_one_written operation Hknown Hfew)).
Defined.

Lemma clear_chunk_files_keeps (chunks : list JsVal) : forall h this,
  Forall (fun chunk =>
            exists originalPath index,
              get_prop chunk "path"
              = Ok (JStr (FileManager.getChunkPath originalPath index)))
         chunks ->
  ChunkManager.clear_chunk_files chunks h this
  = (Ok tt, Nat.iter (length chunks) clock_read h, this).
Proof.
  induction chunks as [|chunk rest IH]; intros h this Hall;
    [reflexivity|].
  inversion Hall as [|? ? (originalPath & index & Hpath) Hrest]; subst.
  cbn [ChunkManager.clear_chunk_files]. unfold bind, of_outcome.
  rewrite Hpath. unfold ChunkManager.in_fileManager, on_member.
  rewrite clearCache_not_a_number by apply getChunkPath_not_a_number.
  replace (ChunkManager.set_fileManager (ChunkManager.fileManager this) this)
    with this by (now destruct this).
  rewrite IH by assumption. simpl length.
  now rewrite Nat.iter_succ_r.
Qed.

(** X21: when every result recorded for an operation carries a chunk
    path, as the results of [writeChunk] do, [cleanupOperation] returns
    normally and discards the operation record but removes nothing from
    the cache: the file manager is exactly as before. *)
Theorem cleanupOperation_removes_no_entry (operationId : JsString) (h : Host)
    (this : ChunkManager.t) (operation : ChunkManager.Operation) :
  ChunkManager.pendingChunks this !! operationId = Some operation ->
  Forall (fun chunk =>
            exists originalPath index,
              get_prop chunk "path"
              = Ok (JStr (FileManager.getChunkPath originalPath index)))
         (map snd (ChunkManager.chunks operation)) ->
  let r := ChunkManager.cleanupOperation operationId h this in
  r.1.1 = Ok tt
  /\ ChunkManager.fileManager r.2 = ChunkManager.fileManager this
  /\ ChunkManager.pendingChunks r.2
     = delete operationId (ChunkManager.pendingChunks this).
Proof.
  intros Hknown Hpaths r. subst r.
  unfold ChunkManager.cleanupOperation, bind, get_state.
  rewrite Hknown, (clear_chunk_files_keeps _ _ _ Hpaths).
  repeat split.
Qed.

Lemma cleanupOperation_removes_no_entry_witness :
  let written :=
    ChunkManager.writeChunk (lit "out.txt") (lit "abc") 0 (lit "op")
      example_host example_pending in
  let operation :=
    ChunkManager.mkOperation 3 1
      [(0, write_result (lit "out.part0.txt") 3 1700000000001)] in
  ChunkManager.pendingChunks written.2 !! lit "op" = Some operation
  /\ Forall (fun chunk =>
               exists originalPath index,
                 get_prop chunk "path"
                 = Ok (JStr (FileManager.getChunkPath originalPath index)))
            (map snd (ChunkManager.chunks operation))
  /\ ChunkManager.fileManager
       (ChunkManager.cleanupOperation (lit "op") written.1.2 written.2).2
     = ChunkManager.fileManager written.2.
Proof.
  intros written operation.
  assert (Hknown : ChunkManager.pendingChunks written.2 !! lit "op"
                   = Some operation) by (vm_compute; reflexivity).
  assert (Hpaths :
    Forall (fun chunk =>
              exists originalPath index,
                get_prop chunk "path"
                = Ok (JStr (FileManager.getChunkPath originalPath index)))
           (map snd (ChunkManager.chunks operation))).
  { repeat constructor. exists (lit "out.txt"), 0. reflexivity. }
  split; [exact Hknown|]. split; [exact Hpaths|].
  exact (proj1 (proj2 (cleanupOperation_removes_no_entry (lit "op")
                         written.1.2 written.2 operation Hknown Hpaths))).
Defined.

(** ** The merge on chunk entries *)

Lemma sorts_after_index (a b : Z) :
  sorts_after (number_sub (Fin (inject_Z a)) (Fin (inject_Z b))) = (a >? b).
Proof.
  unfold sorts_after, number_sub, number_gt, Qle_bool, Qminus, Qplus, Qopp,
    inject_Z.
  simpl. rewrite Z.gtb_ltb.
  destruct (Z.leb_spec ((a * 1 + - b * 1) * 1) 0);
    destruct (Z.ltb_spec b a); simpl; try reflexivity; lia.
Qed.

Lemma by_metadata_index_on_entries (h : Host) (va vb : JsVal) (ia ib : Z)
    (ca cb : JsString) :
  is_chunk_entry va ia ca -> is_chunk_entry vb ib cb ->
  ChunkManager.by_metadata_index h va vb
  = Ok (number_sub (Fin (inject_Z ia)) (Fin (inject_Z ib))).
Proof.
  intros (pa & ma & -> & Hma & Hia & _) (pb & mb & -> & Hmb & Hib & _).
  unfold ChunkManager.by_metadata_index, get_prop.
  rewrite Hma. cbn. rewrite Hia. cbn. rewrite Hmb. cbn. rewrite Hib.
  reflexivity.
Qed.

Section MergeOnEntries.

Variable h : Host.

Lemma sort_insert_entries (x : JsVal) (xc : Z * JsString)
    (sorted : list JsVal) (ls : list (Z * JsString)) :
  entry_of x xc -> Forall2 entry_of sorted ls ->
  exists res,
    sort_insert (ChunkManager.by_metadata_index h) x sorted = Ok res
    /\ Forall2 entry_of res (insert_by_index xc ls).
Proof.
  intros Hx Hall. induction Hall as [|y yc sorted ls Hy Hall IH].
  - exists [x]. split; [reflexivity | now constructor].
  - cbn [sort_insert insert_by_index].
    rewrite (by_metadata_index_on_entries h y x yc.1 xc.1 yc.2 xc.2 Hy Hx).
    rewrite sorts_after_index.
    destruct (yc.1 >? xc.1).
    + eexists. split; [reflexivity|]. now repeat constructor.
    + destruct IH as (res & -> & Hres).
      eexists. split; [reflexivity | now constructor].
Qed.

Lemma Array_sort_from_entries (todo : list JsVal)
    (tl : list (Z * JsString)) :
  Forall2 entry_of todo tl ->
  forall sorted sl, Forall2 entry_of sorted sl ->
  exists res,
    Array_sort_from (ChunkManager.by_metadata_index h) todo sorted = Ok res
    /\ Forall2 entry_of res (sort_by_index_from tl sl).
Proof.
  induction 1 as [|x xc todo tl Hx Hall IH]; intros sorted sl Hsorted.
  - exists sorted. split; [reflexivity | assumption].
  - cbn [Array_sort_from sort_by_index_from].
    destruct (sort_insert_entries x xc sorted sl Hx Hsorted)
      as (res & -> & Hres).
    now apply IH.
Qed.

Lemma entries_are_defined (vs : list JsVal) (l : list (Z * JsString)) :
  Forall2 entry_of vs l ->
  List.filter (fun v => negb (is_undefined v)) vs = vs
  /\ List.filter is_undefined vs = [].
Proof.
  induction 1 as [|v ic vs l (props & mprops & -> & _) Hall [IH1 IH2]];
    [split; reflexivity|].
  simpl. now rewrite IH1, IH2.
Qed.

Lemma map_content_entries (vs : list JsVal) (l : list (Z * JsString)) :
  Forall2 entry_of vs l ->
  ChunkManager.map_content vs = Ok (map (fun ic => JStr ic.2) l).
Proof.
  induction 1 as [|v ic vs l (props & mprops & -> & _ & _ & Hc) Hall IH];
    [reflexivity|].
  cbn [ChunkManager.map_content]. unfold get_prop. rewrite Hc, IH.
  reflexivity.
Qed.

End MergeOnEntries.

Lemma insert_by_index_perm (x : Z * JsString) (l : list (Z * JsString)) :
  Permutation (insert_by_index x l) (x :: l).
Proof.
  induction l as [|y l IH]; simpl; [reflexivity|].
  destruct (y.1 >? x.1); [reflexivity|].
  rewrite IH. apply perm_swap.
Qed.

Lemma sort_by_index_from_perm (todo : list (Z * JsString)) :
  forall sorted,
    Permutation (sort_by_index_from todo sorted) (todo ++ sorted).
Proof.
  induction todo as [|x todo IH]; intros sorted; simpl; [reflexivity|].
  rewrite IH, insert_by_index_perm. symmetry. apply Permutation_middle.
Qed.

Lemma insert_by_index_sorted (x : Z * JsString) (l : list (Z * JsString)) :
  StronglySorted (fun a b => a.1 <= b.1) l ->
  StronglySorted (fun a b => a.1 <= b.1) (insert_by_index x l).
Proof.
  induction 1 as [|y l Hsorted IH Hy]; simpl.
  - repeat constructor.
  - destruct (Z.gtb_spec y.1 x.1) as [Hgt|Hle].
    + constructor; [now constructor|].
      constructor; [lia|].
      eapply Forall_impl; [exact Hy|]. simpl. intros z Hz. lia.
    + constructor; [exact IH|].
      apply (Permutation_Forall (x := x :: l)).
      * symmetry. apply insert_by_index_perm.
      * constructor; [lia | exact Hy].
Qed.

Lemma sort_by_index_from_sorted (todo : list (Z * JsString)) :
  forall sorted,
    StronglySorted (fun a b => a.1 <= b.1) sorted ->
    StronglySorted (fun a b => a.1 <= b.1) (sort_by_index_from todo sorted).
Proof.
  induction todo as [|x todo IH]; intros sorted Hs; simpl; [exact Hs|].
  apply IH. now apply insert_by_index_sorted.
Qed.

Lemma sort_insert_perm (cmp : JsVal -> JsVal -> Outcome JsNumber)
    (x : JsVal) (sorted : list JsVal) : forall res,
  sort_insert cmp x sorted = Ok res -> Permutation res (x :: sorted).
Proof.
  induction sorted as [|y sorted IH]; intros res; cbn [sort_insert].
  - intros [= <-]. reflexivity.
  - destruct (cmp y x) as [r|e]; [|discriminate].
    destruct (sorts_after r); [intros [= <-]; reflexivity|].
    destruct (sort_insert cmp x sorted) as [l|e]; [|discriminate].
    intros [= <-]. rewrite (IH l eq_refl). apply perm_swap.
Qed.

Lemma Array_sort_from_perm (cmp : JsVal -> JsVal -> Outcome JsNumber)
    (todo : list JsVal) : forall sorted res,
  Array_sort_from cmp todo sorted = Ok res ->
  Permutation res (todo ++ sorted).
Proof.
  induction todo as [|x todo IH]; intros sorted res; cbn [Array_sort_from].
  - intros [= <-]. reflexivity.
  - destruct (sort_insert cmp x sorted) as [sorted'|e] eqn:Hins;
      [|discriminate].
    intros Hres. rewrite (IH _ _ Hres), (sort_insert_perm _ _ _ _ Hins).
    symmetry. apply Permutation_middle.
Qed.

(** X22: on objects that carry a numeric [metadata.index] and a string
    [content], as the cache entries of the chunks do, [concatenateChunks]
    returns normally the contents concatenated in ascending order of
    index, whatever order the objects come in.  The caller's array is
    reordered in place: after the call it holds the same objects in that
    ascending order.  Host and manager are unchanged. *)
Theorem concatenateChunks_merges_in_index_order (entries : list JsVal)
    (indexed : list (Z * JsString)) (h : Host) (this : ChunkManager.t) :
  Forall2 (fun v ic => is_chunk_entry v ic.1 ic.2) entries indexed ->
  let ordered := sort_by_index indexed in
  (exists array_after,
     ChunkManager.concatenateChunks entries h this
     = (Ok (concat (map snd ordered), array_after), h, this)
     /\ Forall2 (fun v ic => is_chunk_entry v ic.1 ic.2) array_after ordered
     /\ Permutation array_after entries)
  /\ Permutation ordered indexed
  /\ StronglySorted (fun a b => a.1 <= b.1) ordered.
Proof.
  intros Hentries ordered. subst ordered.
  split; [|split].
  - unfold ChunkManager.concatenateChunks, bind, get_host, of_outcome, ret.
    unfold Array_sort.
    destruct (entries_are_defined entries indexed Hentries) as [-> ->].
    destruct (Array_sort_from_entries h entries indexed Hentries [] []
                ltac:(constructor)) as (res & Hsort & Hres).
    rewrite Hsort, app_nil_r.
    rewrite (map_content_entries res _ Hres).
    exists res. rewrite map_map.
    split; [reflexivity|]. split; [exact Hres|].
    apply Array_sort_from_perm in Hsort. now rewrite app_nil_r in Hsort.
  - unfold sort_by_index.
    rewrite sort_by_index_from_perm. now rewrite app_nil_r.
  - apply sort_by_index_from_sorted. constructor.
Qed.

Lemma concatenateChunks_merges_in_index_order_witness :
  let entries := [example_entry 1 "def"; example_entry 0 "abc"] in
  let indexed := [(1, lit "def"); (0, lit "abc")] in
  Forall2 (fun v ic => is_chunk_entry v ic.1 ic.2) entries indexed
  /\ exists array_after,
       ChunkManager.concatenateChunks entries example_host ChunkManager.new
       = (Ok (concat (map snd (sort_by_index indexed)), array_after),
          example_host, ChunkManager.new)
       /\ Forall2 (fun v ic => is_chunk_entry v ic.1 ic.2) array_after
            (sort_by_index indexed)
       /\ Permutation array_after entries.
Proof.
  intros entries indexed.
  assert (Hentries :
    Forall2 (fun v ic => is_chunk_entry v ic.1 ic.2) entries indexed).
  { repeat constructor; eexists _, _; repeat split; reflexivity. }
  split; [exact Hentries|].
  exact (proj1 (concatenateChunks_merges_in_index_order entries indexed
                  example_host ChunkManager.new Hentries)).
Defined.

(** ** Operation ids *)

Lemma uint_string_no_underscore (d : Decimal.uint) :
  ~ In "_"%char (list_ascii_of_string (NilEmpty.string_of_uint d)).
Proof.
  induction d; simpl; intros H; try tauto;
    destruct H as [H|H]; try discriminate H; tauto.
Qed.

Lemma number_to_string_no_underscore (z : Z) :
  ~ In 95%N (number_to_string z).
Proof.
  unfold number_to_string, lit. intros Hin.
  apply in_map_iff in Hin as (a & Ha & Hin).
  assert (a = "_"%char) as ->.
  { rewrite <- (ascii_N_embedding a), Ha. reflexivity. }
  unfold NilZero.string_of_int, NilZero.string_of_uint in Hin.
  destruct (Z.to_int z) as [d|d]; destruct d; simpl in Hin;
    repeat (destruct Hin as [Hin|Hin]; [discriminate Hin|]);
    try tauto;
    now apply uint_string_no_underscore in Hin.
Qed.

Lemma first_separator_unique {A} (c : A) (a a' b b' : list A) :
  ~ In c a -> ~ In c a' ->
  a ++ c :: b = a' ++ c :: b' -> a = a' /\ b = b'.
Proof.
  revert a'. induction a as [|x a IH]; intros [|x' a'] Ha Ha' Heq;
    simpl in *.
  - injection Heq as <-. now split.
  - injection Heq as <- _. tauto.
  - injection Heq as -> _. tauto.
  - injection Heq as <- Heq.
    destruct (IH a' ltac:(tauto) ltac:(tauto) Heq) as [-> ->]. now split.
Qed.

Lemma Ok_inj {A} (a b : A) : Ok a = Ok b -> a = b.
Proof. congruence. Qed.

(** X23: the operation id is "chunk_", the clock reading, "_" and the
    random suffix; two ids drawn at different clock readings, or with
    different random suffixes, are different. *)
Theorem generateOperationId_distinct (h h' : Host)
    (this this' : ChunkManager.t) :
  Date_now h (now_reads h) <> Date_now h' (now_reads h')
  \/ random_suffix h (random_reads h) <> random_suffix h' (random_reads h') ->
  (ChunkManager.generateOperationId h this).1.1
  = Ok (lit "chunk_" ++ number_to_string (Date_now h (now_reads h))
          ++ lit "_" ++ random_suffix h (random_reads h))
  /\ (ChunkManager.generateOperationId h this).1.1
     <> (ChunkManager.generateOperationId h' this').1.1.
Proof.
  intros Hdiff. split; [reflexivity|].
  unfold ChunkManager.generateOperationId, bind, now, random36, ret.
  cbn [fst snd]. intros Heq. apply Ok_inj in Heq.
  apply app_inv_head in Heq.
  change (lit "_" ++ ?r) with (95%N :: r) in Heq.
  apply first_separator_unique in Heq as [Ht Hr];
    try apply number_to_string_no_underscore.
  apply number_to_string_inj in Ht. tauto.
Qed.

Lemma generateOperationId_distinct_witness :
  (Date_now example_host (now_reads example_host)
   <> Date_now example_host_later (now_reads example_host_later)
   \/ random_suffix example_host (random_reads example_host)
      <> random_suffix example_host_later (random_reads example_host_later))
  /\ (ChunkManager.generateOperationId example_host ChunkManager.new).1.1
     <> (ChunkManager.generateOperationId example_host_later
           ChunkManager.new).1.1.
Proof.
  assert (Hdiff :
    Date_now example_host (now_reads example_host)
    <> Date_now example_host_later (now_reads example_host_later)
    \/ random_suffix example_host (random_reads example_host)
       <> random_suffix example_host_later
            (random_reads example_host_later))
    by (left; discriminate).
  split; [exact Hdiff|].
  exact (proj2 (generateOperationId_distinct example_host example_host_later
                  ChunkManager.new ChunkManager.new Hdiff)).
Defined.


(** * Completion tracking and surfaced errors, in general *)

(** C1, amended: [completed] counts deliveries.  Every success delivered
    for a known operation, the one that brings [completed] to [total]
    included, records the result under its index and adds one to
    [completed], also when the index was already recorded, in which case
    the recorded indices do not change; the file manager is not touched,
    and the delivery returns normally when the new count differs from
    [total].  Finalize is not tied to the count: for an id that is not
    registered it does nothing; for a registered operation it either
    throws and leaves the manager as it was, or writes the merged content
    at the original path and discards the record, after which finalize for
    the same id does nothing. *)
Theorem completed_counts_deliveries (h : Host) (this : ChunkManager.t)
    (operationId originalPath : JsString) (index : Z) (result : JsVal) :
  (forall operation,
     ChunkManager.pendingChunks this !! operationId = Some operation ->
     let r := ChunkManager.updateChunkProgress operationId index result
                h this in
     ChunkManager.pendingChunks r.2 !! operationId
     = Some (ChunkManager.mkOperation
               (ChunkManager.total operation)
               (ChunkManager.completed operation + 1)
               (map_set index result (ChunkManager.chunks operation)))
     /\ ChunkManager.fileManager r.2 = ChunkManager.fileManager this
     /\ (ChunkManager.completed operation + 1
         <> ChunkManager.total operation -> r.1.1 = Ok tt)
     /\ (In index (map fst (ChunkManager.chunks operation)) ->
         map fst (map_set index result (ChunkManager.chunks operation))
         = map fst (ChunkManager.chunks operation)))
  /\ (let f := ChunkManager.finalizeChunkedOperation operationId
                 originalPath h this in
      (ChunkManager.pendingChunks this !! operationId = None ->
       f = (Ok JUndefined, h, this))
      /\ (forall operation,
            ChunkManager.pendingChunks this !! operationId = Some operation ->
            (exists e, f = (Throw e, h, this))
            \/ (exists merged,
                  f.1.1 = Ok (JStr merged)
                  /\ FileManager.content
                       <$> FileManager.fileCache (ChunkManager.fileManager f.2)
                             !! originalPath
                     = Some merged
                  /\ ChunkManager.pendingChunks f.2
                     = delete operationId (ChunkManager.pendingChunks this)
                  /\ ChunkManager.finalizeChunkedOperation operationId
                       originalPath f.1.2 f.2
                     = (Ok JUndefined, f.1.2, f.2)))).
Proof.
  split.
  - intros operation Hknown r. subst r.
    unfold ChunkManager.updateChunkProgress, bind, get_state.
    rewrite Hknown. cbn [ChunkManager.total ChunkManager.completed
                         ChunkManager.chunks put_state].
    destruct (Z.eqb_spec (ChunkManager.completed operation + 1)
                (ChunkManager.total operation)) as [Heq|Hne];
      cbn [fst snd ChunkManager.pendingChunks ChunkManager.fileManager
           ChunkManager.set_pendingChunks ChunkManager.handleCompletedOperation
           throw ret];
      (split; [apply lookup_insert_eq|]);
      (split; [reflexivity|]);
      (split; [|apply map_set_known_index]).
    + intros Hnot. contradiction.
    + intros _. reflexivity.
  - intros f. subst f. split.
    + apply finalize_unknown.
    + intros operation Hknown.
      destruct (concatenateChunks_pure
                  (map snd (ChunkManager.chunks operation)) h this)
        as [[[merged sorted]|e] Ho].
      * right. exists merged.
        rewrite (finalize_merged operationId originalPath h this operation
                   merged sorted Hknown Ho).
        cbn [fst snd ChunkManager.fileManager ChunkManager.pendingChunks
             FileManager.set_fileCache FileManager.fileCache].
        split; [reflexivity|].
        split; [now rewrite lookup_insert_eq|].
        split; [reflexivity|].
        apply finalize_unknown.
        cbn [ChunkManager.pendingChunks]. apply lookup_delete_eq.
      * left. exists e.
        pose proof (finalize_known operationId originalPath h this operation
                      Hknown) as Hfin.
        now rewrite Ho in Hfin.
Qed.

(** C1 amended, at an input: the operation of three chunks with chunks 0
    and 1 recorded receives the success for chunk 2, which brings
    [completed] to [total], and the success for chunk 1 a second time. *)
Lemma completed_counts_deliveries_witness :
  let operation :=
    ChunkManager.mkOperation 3 2
      [(0, example_result "out.part0.txt" 40000);
       (1, example_result "out.part1.txt" 40000)] in
  let last := example_result "out.part2.txt" 40000 in
  let again := example_result "out.part1.txt" 40000 in
  ChunkManager.pendingChunks example_two_written !! lit "op" = Some operation
  /\ ChunkManager.pendingChunks
       (ChunkManager.updateChunkProgress (lit "op") 2 last
          example_host example_two_written).2 !! lit "op"
     = Some (ChunkManager.mkOperation 3 (2 + 1)
               (map_set 2 last (ChunkManager.chunks operation)))
  /\ In 1 (map fst (ChunkManager.chunks operation))
  /\ map fst (map_set 1 again (ChunkManager.chunks operation))
     = map fst (ChunkManager.chunks operation)
  /\ ChunkManager.pendingChunks example_two_written !! lit "other" = None
  /\ ChunkManager.finalizeChunkedOperation (lit "other") (lit "out.txt")
       example_host example_two_written
     = (Ok JUndefined, example_host, example_two_written).
Proof.
  intros operation last again.
  assert (Hknown : ChunkManager.pendingChunks example_two_written !! lit "op"
                   = Some operation) by (vm_compute; reflexivity).
  assert (Hin : In 1 (map fst (ChunkManager.chunks operation)))
    by (simpl; tauto).
  assert (Hunknown : ChunkManager.pendingChunks example_two_written
                       !! lit "other" = None) by (vm_compute; reflexivity).
  split; [exact Hknown|].
  split.
  { exact (proj1 (proj1 (completed_counts_deliveries example_host
                           example_two_written (lit "op") (lit "out.txt")
                           2 last) operation Hknown)). }
  split; [exact Hin|].
  split.
  { exact (proj2 (proj2 (proj2 (proj1 (completed_counts_deliveries
             example_host example_two_written (lit "op") (lit "out.txt")
             1 again) operation Hknown))) Hin). }
  split; [exact Hunknown|].
  exact (proj1 (proj2 (completed_counts_deliveries example_host
                         example_two_written (lit "other") (lit "out.txt")
                         0 last)) Hunknown).
Defined.

(** C7, amended: a validation error thrown inside an operation run under
    [withRetry], at whichever attempt the run gets to (the first, or one
    that follows retryable failures), surfaces as a new error of class
    [WorkerError] that carries the original message, the supplied context
    and the clock reading as timestamp, and nothing else of the original:
    no [details], [status] or [code]. *)
Theorem withRetry_permanent_surfaces_wrapped (this : ErrorHandler.t)
    (operation : nat -> Outcome JsVal) (supplied : list (string * JsVal))
    (h : Host) (k : nat) (error : JsError) :
  Z.of_nat k < ErrorHandler.maxRetries this ->
  (forall j : nat, (j < k)%nat ->
     exists e, operation j = Throw e
               /\ ErrorHandler.isRetryable e = true) ->
  operation k = Throw error ->
  instanceof error ClsValidationError = true ->
  let r := ErrorHandler.withRetry this operation supplied h
             ErrorHandler.no_effects in
  r.1.1
  = Throw (mkJsError ClsWorkerError (lit "WorkerError") (message error)
             None (Some supplied) (Some (Date_now h (now_reads h)))
             None None)
  /\ ErrorHandler.invocations r.2 = S k.
Proof.
  intros Hk Hfail Hthrow Hcls r. subst r. unfold ErrorHandler.withRetry.
  set (m := Z.to_nat (ErrorHandler.maxRetries this - Z.of_nat k - 1)).
  replace (Z.to_nat (ErrorHandler.maxRetries this)) with (k + S m)%nat
    by lia.
  destruct (retry_loop_skips_failures this operation supplied k m 1
              (ErrorHandler.baseDelay this) h ErrorHandler.no_effects)
    as (eff' & -> & Hinv & _ & _); [lia | exact Hfail |].
  rewrite retry_loop_step, Hinv. simpl Nat.add. rewrite Hthrow.
  destruct (validation_error_not_retryable error Hcls) as [-> Hw].
  cbn [negb]. rewrite enhance_and_throw.
  cbn [fst snd invoked ErrorHandler.invocations]. rewrite Hinv.
  unfold enhanced. rewrite Hw. split; reflexivity.
Qed.

(** C7 amended, at an input: the validation error is thrown at the second
    attempt, after a retryable failure. *)
Lemma withRetry_permanent_surfaces_wrapped_witness :
  let operation := throws_after_one_retry example_validation_error in
  let default := ErrorHandler.new ErrorHandler.no_options in
  Z.of_nat 1 < ErrorHandler.maxRetries default
  /\ (forall j : nat, (j < 1)%nat ->
        exists e, operation j = Throw e
                  /\ ErrorHandler.isRetryable e = true)
  /\ operation 1%nat = Throw example_validation_error
  /\ instanceof example_validation_error ClsValidationError = true
  /\ (ErrorHandler.withRetry default operation example_context example_host
        ErrorHandler.no_effects).1.1
     = Throw (mkJsError ClsWorkerError (lit "WorkerError")
                (lit "API specification validation failed")
                None (Some example_context) (Some 1700000000000)
                None None).
Proof.
  intros operation default.
  assert (Hk : Z.of_nat 1 < ErrorHandler.maxRetries default)
    by (simpl; lia).
  assert (Hfail : forall j : nat, (j < 1)%nat ->
            exists e, operation j = Throw e
                      /\ ErrorHandler.isRetryable e = true).
  { intros j Hj. assert (j = 0%nat) as -> by lia.
    eexists. split; reflexivity. }
  split; [exact Hk|]. split; [exact Hfail|].
  split; [reflexivity|]. split; [reflexivity|].
  exact (proj1 (withRetry_permanent_surfaces_wrapped default operation
                  example_context example_host 1 example_validation_error
                  Hk Hfail eq_refl eq_refl)).
Defined.
